(** * Clarity news clustering core (src/data.py) in Rocq

    A shallow embedding of the pure part of [src/data.py]: the keyword
    extractor [extract_keywords], the source-bias lookup [get_source_bias],
    the issue clusterer (the body of [fetch_real_news] from the organic
    clustering loop to the synthetic fallback pass; the NewsAPI calls are
    I/O around it and are left out) and the bias filter
    [get_articles_by_bias]. The JSON news cache of [fetch_real_news], the
    [Analytics] log of [src/analytics.py] and the steps of the page script
    [src/app.py] that log visits and slider positions and check feedback
    are modelled with their files as explicit state.

    Python strings are modelled as [string] over ASCII characters; [str.lower],
    [str.split()], [str.strip(chars)] and [str.isalpha] are written out on
    ASCII. Python dictionaries are records whose optional keys are [option]
    fields ([None] is an absent key); a [KeyError] raised by [d[k]] is the
    error of a small exception monad. *)

From Stdlib Require Import ZArith Ascii String.
From stdpp Require Import base list gmap sets strings.
From Stdlib Require Import QArith_base.

Open Scope Z_scope.

(** ** Python string primitives on ASCII *)

Module Py.

(** [str.isupper] for one ASCII character. *)
Definition is_upper (c : ascii) : bool :=
  let n := nat_of_ascii c in (65 <=? n)%nat && (n <=? 90)%nat.

(** [str.lower] for one ASCII character. *)
Definition lower_char (c : ascii) : ascii :=
  if is_upper c then ascii_of_nat (nat_of_ascii c + 32) else c.

(** [str.lower]. *)
Definition lower (s : string) : string :=
  string_of_list_ascii (map lower_char (list_ascii_of_string s)).

(** The ASCII characters [str.split()] treats as white space:
    \t \n \x0b \x0c \r, \x1c .. \x1f and the space. *)
Definition is_space (c : ascii) : bool :=
  let n := nat_of_ascii c in
  ((9 <=? n)%nat && (n <=? 13)%nat) || ((28 <=? n)%nat && (n <=? 32)%nat).

(** [str.split()] on a character list: runs of white space separate
    words, leading and trailing white space give no empty word.
    [cur] is the current word, reversed. *)
Fixpoint split_chars (cs cur : list ascii) : list (list ascii) :=
  match cs with
  | [] => match cur with [] => [] | _ => [rev cur] end
  | c :: r =>
      if is_space c then
        match cur with
        | [] => split_chars r []
        | _ => rev cur :: split_chars r []
        end
      else split_chars r (c :: cur)
  end.

Definition split (s : string) : list string :=
  map string_of_list_ascii (split_chars (list_ascii_of_string s) []).

(** [str.lstrip(chars)] on a character list. *)
Fixpoint lstrip_chars (chars : list ascii) (l : list ascii) : list ascii :=
  match l with
  | [] => []
  | c :: r => if bool_decide (c ∈ chars) then lstrip_chars chars r else l
  end.

(** [str.strip(chars)]: drop leading and trailing characters of [chars]. *)
Definition strip_chars (chars : list ascii) (cs : list ascii) : list ascii :=
  rev (lstrip_chars chars (rev (lstrip_chars chars cs))).

Definition strip (chars : list ascii) (s : string) : string :=
  string_of_list_ascii (strip_chars chars (list_ascii_of_string s)).

(** [str.isalpha] on ASCII: non-empty and every character a letter. *)
Definition is_letter (c : ascii) : bool :=
  let n := nat_of_ascii c in
  ((65 <=? n)%nat && (n <=? 90)%nat) || ((97 <=? n)%nat && (n <=? 122)%nat).

Definition isalpha (s : string) : bool :=
  match list_ascii_of_string s with
  | [] => false
  | cs => forallb is_letter cs
  end.

(** Truthiness of an optional string field read with [d.get(k)]. *)
Definition truthy (o : option string) : option string :=
  match o with
  | Some s => if bool_decide (s = ""%string) then None else Some s
  | None => None
  end.

End Py.

(** ** [extract_keywords] (data.py, lines 87-114) *)

(** The characters stripped by [word.strip] on line 100: period, comma,
    exclamation and question marks, semicolon, colon and the double quote
    (character 34). *)
Definition strip_set : list ascii :=
  ["."; ","; "!"; "?"; ";"; ":"; ascii_of_nat 34]%char.

Definition stop_words : list string :=
  ["the"; "a"; "an"; "and"; "or"; "but"; "in"; "on"; "at"; "to"; "for";
   "of"; "with"; "by"; "from"; "as"; "is"; "was"; "are"; "were"; "been";
   "have"; "has"; "had"; "will"; "would"; "could"; "should"; "may"; "might"]%string.

(** The filter of line 101. *)
Definition keep_word (w : string) : bool :=
  (3 <? String.length w)%nat && negb (bool_decide (w ∈ stop_words)) && Py.isalpha w.

(** The lowered text of line 90: title, a space, then the description,
    where a missing (or empty) description gives the empty string. *)
Definition keyword_text (title : string) (description : option string) : string :=
  Py.lower (title +:+ " " +:+ default ""%string description).

(** The cleaned words [word.strip(...)] for every word of [text.split()]. *)
Definition cleaned_words (title : string) (description : option string) : list string :=
  map (Py.strip strip_set) (Py.split (keyword_text title description)).

(** The loop of lines 105-112: first occurrences, stopping at 4. *)
Fixpoint unique_loop (kws seen acc : list string) : list string :=
  match kws with
  | [] => acc
  | kw :: r =>
      if bool_decide (kw ∈ seen) then unique_loop r seen acc
      else
        let acc' := acc ++ [kw] in
        if (4 <=? length acc')%nat then acc' else unique_loop r (kw :: seen) acc'
  end.

Definition extract_keywords (title : string) (description : option string) : list string :=
  let keywords := filter (fun w => keep_word w = true) (cleaned_words title description) in
  unique_loop keywords [] [].


(** ** Exceptions *)

(** The exceptions the modelled code can raise on its input. *)
Inductive PyExc := KeyError (key : string).

(** A computation that returns a value or raises. *)
Inductive res (A : Type) := Ok (a : A) | Raise (e : PyExc).
Arguments Ok {A} a.
Arguments Raise {A} e.

Global Instance res_ret : MRet res := fun A a => Ok a.
Global Instance res_bind : MBind res := fun A B f m =>
  match m with Ok a => f a | Raise e => Raise e end.

(** ** Data model *)

Inductive Bias := Left | Center | Right.

Global Instance Bias_eq_dec : EqDecision Bias.
Proof. solve_decision. Defined.

(** The [source] dictionary of a NewsAPI record; [None] is an absent key. *)
Record Source := mkSource { src_id : option string; src_name : option string }.

(** A NewsAPI article record as the code reads it: the keys [title], [url],
    [source] and [description]; [None] is an absent key. *)
Record RawArticle := mkRaw {
  raw_title : option string;
  raw_url : option string;
  raw_source : option Source;
  raw_description : option string
}.

Global Instance Source_eq_dec : EqDecision Source.
Proof. solve_decision. Defined.
Global Instance RawArticle_eq_dec : EqDecision RawArticle.
Proof. solve_decision. Defined.

(** An article of an issue: [{title, source, bias, url}]. *)
Record Article := mkArticle {
  art_title : string;
  art_source : string;
  art_bias : Bias;
  art_url : string
}.

(** An issue dictionary: [{id, headline, keywords, articles}]. The
    [articles] key is [None] for a dictionary that lacks it; every issue
    built by [fetch_real_news] has it. *)
Record Issue := mkIssue {
  issue_id : Z;
  headline : string;
  keywords : list string;
  articles : option (list Article)
}.

(** The keys of an issue dictionary, in insertion order. *)
Definition issue_keys (i : Issue) : list string :=
  ["id"; "headline"; "keywords"]%string ++
  match articles i with Some _ => ["articles"%string] | None => [] end.

(** [set(a['bias'] for a in l)] as the list of its distinct elements. *)
Definition biases_of (l : list Article) : list Bias := remove_dups (map art_bias l).

(** ** [get_source_bias] (lines 81-85) and [SOURCE_BIAS_MAP] (lines 15-50) *)

Definition SOURCE_BIAS_MAP : gmap string Bias :=
  list_to_map [
    ("cnn", Left); ("msnbc", Left); ("the-guardian-uk", Left);
    ("the-huffington-post", Left); ("politico", Left);
    ("the-washington-post", Left); ("nbc-news", Left); ("buzzfeed", Left);
    ("vice-news", Left); ("the-new-york-times", Left);
    ("bbc-news", Center); ("reuters", Center); ("associated-press", Center);
    ("axios", Center); ("bloomberg", Center); ("the-hill", Center);
    ("usa-today", Center); ("npr", Center); ("abc-news", Center);
    ("cbs-news", Center);
    ("fox-news", Right); ("the-wall-street-journal", Right);
    ("the-american-conservative", Right); ("national-review", Right);
    ("the-washington-times", Right); ("daily-mail", Right);
    ("new-york-post", Right); ("newsmax", Right); ("breitbart-news", Right)
  ]%string.

Definition get_source_bias (source_id : string) : Bias :=
  if bool_decide (source_id = ""%string) then Center
  else default Center (SOURCE_BIAS_MAP !! Py.lower source_id).

(** [article.get('source', {}).get('id', '')]. *)
Definition source_id_of (a : RawArticle) : string :=
  match raw_source a with Some s => default ""%string (src_id s) | None => ""%string end.

(** [article.get('source', {}).get('name', dflt)]. *)
Definition source_name_of (dflt : string) (a : RawArticle) : string :=
  match raw_source a with Some s => default dflt (src_name s) | None => dflt end.

(** ** The organic clustering pass of [fetch_real_news] (lines 147-217) *)

(** [set(title.lower().split()[:5])]. *)
Definition title_words (t : string) : gset string :=
  list_to_set (take 5 (Py.split (Py.lower t))).

(** [frozenset(title.lower().split())]. *)
Definition all_title_words (t : string) : gset string :=
  list_to_set (Py.split (Py.lower t)).

(** [article['title'][:60] + '...' if len(article['title']) > 60 else
    article['title']]. *)
Definition make_headline (t : string) : string :=
  if (60 <? String.length t)%nat then (substring 0 60 t +:+ "...")%string else t.

(** Line 153: the record's title and url when both are truthy. *)
Definition title_and_url (a : RawArticle) : option (string * string) :=
  match Py.truthy (raw_title a), Py.truthy (raw_url a) with
  | Some t, Some u => Some (t, u)
  | _, _ => None
  end.

(** The scan of lines 179-201 for related articles of the seed [article]
    with bias [bias] and keywords [kws]; [acc] is [related_articles]. *)
Fixpoint related_scan (article : RawArticle) (bias : Bias) (kws : list string)
    (others : list RawArticle) (acc : list Article) : res (list Article) :=
  match others with
  | [] => Ok acc
  | other :: rest =>
      if bool_decide (other = article) then related_scan article bias kws rest acc
      else
        let other_bias := get_source_bias (source_id_of other) in
        match Py.truthy (raw_title other) with
        | Some ot =>
            if bool_decide (other_bias ≠ bias) then
              let other_keywords : gset string :=
                list_to_set (extract_keywords ot (raw_description other)) in
              if bool_decide (2 <= size ((list_to_set kws : gset string) ∩ other_keywords))%nat
              then
                match raw_url other with
                | None => Raise (KeyError "url")
                | Some ou =>
                    let acc' := acc ++ [mkArticle ot (source_name_of "Unknown" other)
                                                  other_bias ou] in
                    if (3 <=? length acc')%nat && (3 <=? length (biases_of acc'))%nat
                    then Ok acc'
                    else related_scan article bias kws rest acc'
                end
              else related_scan article bias kws rest acc
            else related_scan article bias kws rest acc
        | None => related_scan article bias kws rest acc
        end
  end.

(** The loop of lines 152-217 over [rest], a suffix of [all_articles];
    returns the issues and the next [issue_id]. *)
Fixpoint organic_loop (all_articles rest : list RawArticle) (issues : list Issue)
    (seen_titles : list (gset string)) (issue_id : Z) : res (list Issue * Z) :=
  match rest with
  | [] => Ok (issues, issue_id)
  | article :: rest' =>
      match title_and_url article with
      | None => organic_loop all_articles rest' issues seen_titles issue_id
      | Some (t, u) =>
          let tw := title_words t in
          if existsb (fun seen => bool_decide (3 < size (tw ∩ seen))%nat) seen_titles
          then organic_loop all_articles rest' issues seen_titles issue_id
          else
            let seen_titles' := all_title_words t :: seen_titles in
            let source_name := source_name_of "Unknown Source" article in
            let bias := get_source_bias (source_id_of article) in
            let kws := extract_keywords t (raw_description article) in
            related_articles ← related_scan article bias kws all_articles
                                 [mkArticle t source_name bias u];
            if (2 <=? length (biases_of related_articles))%nat then
              let issue := mkIssue issue_id (make_headline t) (take 4 kws)
                             (Some (take 6 related_articles)) in
              let issues' := issues ++ [issue] in
              if (10 <=? length issues')%nat then Ok (issues', issue_id + 1)
              else organic_loop all_articles rest' issues' seen_titles' (issue_id + 1)
            else organic_loop all_articles rest' issues seen_titles' issue_id
      end
  end.

(** ** The synthetic fallback pass (lines 219-272) *)

(** [keywords[0] if keywords else 'this topic']. *)
Definition topic_of (kws : list string) : string :=
  match kws with k :: _ => k | [] => "this topic"%string end.

(** The issue of lines 231-266 for a record with title [t], url [u]. *)
Definition synthetic_issue (issue_id : Z) (article : RawArticle) (t u : string) : Issue :=
  let source_name := source_name_of "Unknown Source" article in
  let bias := get_source_bias (source_id_of article) in
  let kws := extract_keywords t (raw_description article) in
  let topic := topic_of kws in
  let arts :=
    [mkArticle t source_name bias u] ++
    (if bool_decide (bias ≠ Left) then
       [mkArticle ("[Left perspective on: " +:+ topic +:+ "]") "Left-leaning Source" Left u]
     else []) ++
    (if bool_decide (bias ≠ Center) then
       [mkArticle ("[Balanced perspective on: " +:+ topic +:+ "]") "Centrist Source" Center u]
     else []) ++
    (if bool_decide (bias ≠ Right) then
       [mkArticle ("[Right perspective on: " +:+ topic +:+ "]") "Right-leaning Source" Right u]
     else []) in
  mkIssue issue_id (make_headline t) (take 4 kws) (Some arts).

(** The loop of lines 221-272 over [all_articles[:15]]. *)
Fixpoint fallback_loop (rest : list RawArticle) (issues : list Issue) (issue_id : Z)
    : list Issue :=
  match rest with
  | [] => issues
  | article :: rest' =>
      match title_and_url article with
      | None => fallback_loop rest' issues issue_id
      | Some (t, u) =>
          let issues' := issues ++ [synthetic_issue issue_id article t u] in
          if (8 <=? length issues')%nat then issues'
          else fallback_loop rest' issues' (issue_id + 1)
      end
  end.

(** ** The clusterer: lines 147-276 of [fetch_real_news] on a fetched batch *)

Definition cluster (all_articles : list RawArticle) : res (list Issue) :=
  '(issues, issue_id) ← organic_loop all_articles all_articles [] [] 1;
  if (length issues <? 5)%nat
  then mret (fallback_loop (take 15 all_articles) issues issue_id)
  else mret issues.

(** [get_fallback_issues] (lines 283-297). *)
Definition get_fallback_issues : list Issue :=
  [mkIssue 1 "Unable to fetch live news" ["api"; "error"; "fallback"]
     (Some [mkArticle "Please check your internet connection" "System" Center
              "https://newsapi.org";
            mkArticle "Or your NewsAPI key may be invalid" "System" Center
              "https://newsapi.org"])]%string.

(** [fetch_real_news] on a fetched batch, without the cache: an exception
    raised by the clusterer is caught by the handler of lines 278-281. *)
Definition fetch_real_news_from (all_articles : list RawArticle) : list Issue :=
  match cluster all_articles with
  | Ok issues => issues
  | Raise _ => get_fallback_issues
  end.

(** ** [get_articles_by_bias] (lines 302-313) *)

Definition get_articles_by_bias (issue : Issue) (bias_preference : Z) : res (list Article) :=
  match articles issue with
  | None => Raise (KeyError "articles")
  | Some arts =>
      if bias_preference =? -1 then Ok (filter (fun a => art_bias a ∈ [Left; Center]) arts)
      else if bias_preference =? 1 then Ok (filter (fun a => art_bias a ∈ [Right; Center]) arts)
      else Ok arts
  end.

(** ** The news cache: [load_cache] (lines 56-67), [save_cache] (lines 69-79)
    and the cache branch of [fetch_real_news] (lines 118-122, 274-281) *)

(** Times are [datetime] values counted in microseconds. *)
Definition CACHE_DURATION_MINUTES : Z := 30.

(** [timedelta(minutes=CACHE_DURATION_MINUTES)] in microseconds. *)
Definition cache_duration : Z := CACHE_DURATION_MINUTES * 60 * 1000000.

(** The file [news_cache.json]: absent, not JSON ([json.JSONDecodeError]),
    or a JSON object. The object's [timestamp] is [None] when
    [datetime.fromisoformat(cache_data.get('timestamp', ''))] raises
    [ValueError] (a missing key gives the empty string, which it rejects);
    [save_cache] writes [datetime.now().isoformat()], which [fromisoformat]
    reads back exactly. Its [issues] is [None] when the key is missing. *)
Inductive CacheFile :=
  | NoCacheFile
  | CacheNotJson
  | CacheObject (timestamp : option Z) (cached_issues : option (list Issue)).

(** [load_cache()] at time [now]: [None] for Python's [None]. *)
Definition load_cache (f : CacheFile) (now : Z) : option (list Issue) :=
  match f with
  | CacheObject (Some cache_time) cached =>
      if now - cache_time <? cache_duration then Some (default [] cached) else None
  | _ => None
  end.

(** [save_cache(issues)] at time [now]: the cache file it writes (the
    [IOError] it ignores is not modelled). *)
Definition save_cache (issues : list Issue) (now : Z) : CacheFile :=
  CacheObject (Some now) (Some issues).

(** [fetch_real_news()] with the cache file [f] it finds, the time [now_load]
    of its [load_cache()] call, the time [now_save] of its [save_cache] call
    and the batch the NewsAPI calls return: the issues it returns and the
    cache file afterwards. An exception of the clusterer is caught by the
    [except Exception] of line 278 before [save_cache] runs. *)
Definition fetch_real_news (f : CacheFile) (now_load now_save : Z)
    (all_articles : list RawArticle) : list Issue * CacheFile :=
  match load_cache f now_load with
  | Some ((_ :: _) as cached_issues) => (cached_issues, f)
  | _ =>
      match cluster all_articles with
      | Ok issues => (issues, save_cache issues now_save)
      | Raise _ => (get_fallback_issues, f)
      end
  end.

(** ** The analytics log ([class Analytics], src/analytics.py) *)

Module Analytics.

(** [self.logs]: the visit counter, the [clicks] dictionary from url to
    count (an association list in insertion order, the order a Python dict
    keeps) and the [slider_positions] entries [{position, timestamp}]. *)
Record Logs := mkLogs {
  visits : Z;
  clicks : list (string * Z);
  slider_positions : list (Z * string)
}.

(** [{"visits": 0, "clicks": {}, "slider_positions": []}] *)
Definition default_logs : Logs := mkLogs 0 [] [].

(** The file [analytics.json]: absent, empty, not JSON
    ([json.JSONDecodeError]), or the JSON text [_save_logs] wrote for some
    logs, which [json.loads] reads back. *)
Inductive LogFile := NoLogFile | EmptyLogFile | CorruptLogFile | LogJson (l : Logs).

(** [_load_logs] (lines 11-23). *)
Definition load_logs (f : LogFile) : Logs :=
  match f with
  | LogJson l => l
  | NoLogFile | EmptyLogFile | CorruptLogFile => default_logs
  end.

(** [_save_logs] (lines 25-30): the file it writes (its [IOError] branch is
    not modelled). *)
Definition save_logs (l : Logs) : LogFile := LogJson l.

(** [clicks.get(url)] *)
Fixpoint click_lookup (url : string) (cs : list (string * Z)) : option Z :=
  match cs with
  | [] => None
  | (k, v) :: r => if bool_decide (k = url) then Some v else click_lookup url r
  end.

(** [clicks[url] = v]: the value of a present key is replaced in place, a new
    key goes last. *)
Fixpoint click_set (url : string) (v : Z) (cs : list (string * Z)) : list (string * Z) :=
  match cs with
  | [] => [(url, v)]
  | (k, w) :: r =>
      if bool_decide (k = url) then (k, v) :: r else (k, w) :: click_set url v r
  end.

(** [log_visit] (lines 32-34): the logs and the file afterwards. *)
Definition log_visit (l : Logs) : Logs * LogFile :=
  let l' := mkLogs (visits l + 1) (clicks l) (slider_positions l) in
  (l', save_logs l').

(** [log_click] (lines 36-40). The lookup of [+= 1] finds the key, set on
    line 38 when it was missing. *)
Definition log_click (article_url : string) (l : Logs) : Logs * LogFile :=
  let cs := if bool_decide (article_url ∈ map fst (clicks l)) then clicks l
            else click_set article_url 0 (clicks l) in
  let cs' := match click_lookup article_url cs with
             | Some n => click_set article_url (n + 1) cs
             | None => cs
             end in
  let l' := mkLogs (visits l) cs' (slider_positions l) in
  (l', save_logs l').

(** [log_slider_position] (lines 42-44); [timestamp] is
    [str(datetime.now())]. *)
Definition log_slider_position (position : Z) (timestamp : string) (l : Logs) : Logs * LogFile :=
  let l' := mkLogs (visits l) (clicks l) (slider_positions l ++ [(position, timestamp)]) in
  (l', save_logs l').

(** The dictionary [get_summary] returns. [avg_slider_position] is the exact
    quotient of line 48, which Python's [/] rounds to the nearest float. *)
Record Summary := mkSummary {
  total_visits : Z;
  total_clicks : Z;
  avg_slider_position : Q;
  clicks_by_url : list (string * Z)
}.

(** [get_summary] (lines 46-54). *)
Definition get_summary (l : Logs) : Summary :=
  let total_slider_positions := Z.of_nat (length (slider_positions l)) in
  let avg_slider := Qmake (foldr Z.add 0 (map fst (slider_positions l)))
                          (Z.to_pos (Z.max 1 total_slider_positions)) in
  mkSummary (visits l) (foldr Z.add 0 (map snd (clicks l))) avg_slider (clicks l).

End Analytics.

(** ** The page script (src/app.py) *)

(** The keys [visit_logged] and [last_slider_pos] of [st.session_state]
    ([false] and [None] while a key is absent). *)
Record SessionState := mkSession {
  visit_logged : bool;
  last_slider_pos : option Z
}.

Definition new_session : SessionState := mkSession false None.

(** One run of the script on the slider value [bias_preference], as far as
    it touches the analytics log: line 7 builds [Analytics()], which loads
    the log file; lines 499-501 log a visit once per session; lines 541-543
    log the slider position when it differs from the last one of the session.
    [timestamp] is the time of the slider log. Returns the session state and
    the log file afterwards. *)
Definition app_rerun (bias_preference : Z) (timestamp : string)
    (ss : SessionState) (f : Analytics.LogFile) : SessionState * Analytics.LogFile :=
  let analytics := Analytics.load_logs f in
  let '(ss1, logs1, f1) :=
    if visit_logged ss then (ss, analytics, f)
    else let '(l, f') := Analytics.log_visit analytics in
         (mkSession true (last_slider_pos ss), l, f') in
  if bool_decide (last_slider_pos ss1 = Some bias_preference) then (ss1, f1)
  else let '(_, f2) := Analytics.log_slider_position bias_preference timestamp logs1 in
       (mkSession (visit_logged ss1) (Some bias_preference), f2).

(** The reruns of one session, each on a slider value and a timestamp. *)
Fixpoint run_session (inputs : list (Z * string)) (ss : SessionState) (f : Analytics.LogFile)
    : SessionState * Analytics.LogFile :=
  match inputs with
  | [] => (ss, f)
  | (p, ts) :: r => let '(ss', f') := app_rerun p ts ss f in run_session r ss' f'
  end.

(** The slider entries a session adds to the log: each slider value that
    differs from the previous value logged in the session, with its time. *)
Fixpoint slider_changes (prev : option Z) (inputs : list (Z * string)) : list (Z * string) :=
  match inputs with
  | [] => []
  | (p, ts) :: r =>
      if bool_decide (prev = Some p) then slider_changes prev r
      else (p, ts) :: slider_changes (Some p) r
  end.

(** The characters [str.strip()] removes on ASCII ([str.isspace]):
    9-13, 28-31 and the space. *)
Definition whitespace : list ascii :=
  map ascii_of_nat [9; 10; 11; 12; 13; 28; 29; 30; 31; 32]%nat.

Inductive FeedbackMessage := FeedbackThanks | FeedbackWarning.

(** The [Send Feedback] button (lines 594-602): the message shown. *)
Definition send_feedback (feedback_text : string) : FeedbackMessage :=
  if bool_decide (Py.strip whitespace feedback_text = ""%string) then FeedbackWarning
  else FeedbackThanks.

(** ** Sample batches *)

Definition cnn : option Source := Some (mkSource (Some "cnn"%string) (Some "CNN"%string)).
Definition fox : option Source := Some (mkSource (Some "fox-news"%string) (Some "Fox News"%string)).

Definition rec_a : RawArticle :=
  mkRaw (Some "Senate Passes Budget Bill"%string) (Some "u1"%string) cnn None.
Definition rec_b : RawArticle :=
  mkRaw (Some "Senate Passes Budget Bill Today"%string) (Some "u2"%string) fox None.

Example ex_kw : extract_keywords "Senate Passes Budget Bill, Today!" None
  = ["senate"; "passes"; "budget"; "bill"]%string.
Proof. vm_compute. reflexivity. Qed.

(** ** Invariants of the clusterer *)

#[local] Arguments Nat.leb : simpl never.
#[local] Arguments Nat.ltb : simpl never.

Section Clusterer.

(** An issue with an [articles] list of at most 6 articles spanning at
    least two biases. *)
Definition good_issue (i : Issue) : Prop :=
  ∃ l, articles i = Some l ∧ (2 <= length (biases_of l))%nat ∧ (length l <= 6)%nat.

Lemma biases_of_two (l : list Article) (x y : Article) :
  x ∈ l → y ∈ l → art_bias x ≠ art_bias y → (2 <= length (biases_of l))%nat.
Proof.
  intros Hx Hy Hne. unfold biases_of.
  assert (art_bias x ∈ remove_dups (map art_bias l)) as Hx'
    by (apply elem_of_remove_dups, list_elem_of_fmap_2; done).
  assert (art_bias y ∈ remove_dups (map art_bias l)) as Hy'
    by (apply elem_of_remove_dups, list_elem_of_fmap_2; done).
  destruct (remove_dups (map art_bias l)) as [|b1 [|b2 r]]; simpl.
  - by apply not_elem_of_nil in Hx'.
  - apply list_elem_of_singleton in Hx', Hy'. congruence.
  - lia.
Qed.

(** [related_scan] only appends, and only articles of a bias other than
    the seed's. *)
Lemma related_scan_app (article : RawArticle) (bias : Bias) (kws : list string)
    (others : list RawArticle) (acc r : list Article) :
  related_scan article bias kws others acc = Ok r →
  ∃ new, r = acc ++ new ∧ Forall (fun a => art_bias a ≠ bias) new.
Proof.
  revert acc. induction others as [|o others IH]; intros acc H; simpl in H.
  - injection H as <-. exists []. by rewrite app_nil_r.
  - case_bool_decide; [by apply IH|].
    destruct (Py.truthy (raw_title o)) as [ot|]; [|by apply IH].
    case_bool_decide as Hb; [|by apply IH].
    case_bool_decide; [|by apply IH].
    destruct (raw_url o) as [ou|]; [|discriminate].
    set (a := mkArticle ot (source_name_of "Unknown" o)
                (get_source_bias (source_id_of o)) ou).
    assert (Forall (fun x => art_bias x ≠ bias) [a]) by (constructor; auto).
    destruct (_ && _).
    + injection H as <-. eexists. split; [reflexivity|done].
    + apply IH in H as (new & -> & Hnew).
      exists (a :: new). rewrite <-app_assoc. split; [done|]. by constructor.
Qed.

Lemma organic_issue_good (article : RawArticle) (t u : string) (bias : Bias)
    (kws : list string) (all_articles : list RawArticle) (rel : list Article) (id : Z)
    (name : string) :
  related_scan article bias kws all_articles [mkArticle t name bias u] = Ok rel →
  (2 <= length (biases_of rel))%nat →
  good_issue (mkIssue id (make_headline t) (take 4 kws) (Some (take 6 rel))).
Proof.
  intros Hscan Hb. apply related_scan_app in Hscan as (new & -> & Hnew).
  exists (take 6 (mkArticle t name bias u :: new)). split; [done|].
  split; [|rewrite length_take; lia].
  destruct new as [|x new].
  - unfold biases_of in Hb. simpl in Hb. lia.
  - apply Forall_cons in Hnew as [Hx _].
    apply (biases_of_two _ (mkArticle t name bias u) x); simpl.
    + left.
    + right. left.
    + congruence.
Qed.

Lemma organic_loop_good (all_articles rest : list RawArticle) (issues : list Issue)
    (seen : list (gset string)) (id : Z) (issues' : list Issue) (id' : Z) :
  Forall good_issue issues → (length issues < 10)%nat →
  organic_loop all_articles rest issues seen id = Ok (issues', id') →
  Forall good_issue issues' ∧ (length issues' <= 10)%nat.
Proof.
  revert issues seen id. induction rest as [|article rest IH]; intros issues seen id Hg Hl H;
    simpl in H.
  - injection H as <- <-. split; [done|lia].
  - destruct (title_and_url article) as [[t u]|]; [|by eapply IH].
    destruct (existsb _ _); [by eapply IH|].
    destruct (related_scan _ _ _ _ _) as [rel|e] eqn:Hscan; simpl in H; [|discriminate].
    destruct (2 <=? length (biases_of rel))%nat eqn:Hb; [|by eapply IH].
    apply Nat.leb_le in Hb.
    assert (Forall good_issue (issues ++ [mkIssue id (make_headline t)
              (take 4 (extract_keywords t (raw_description article)))
              (Some (take 6 rel))])) as Hg'.
    { apply Forall_app. split; [done|]. constructor; [|done].
      by eapply organic_issue_good. }
    destruct (10 <=? _)%nat eqn:H10.
    + injection H as <- <-. split; [done|]. rewrite length_app; simpl; lia.
    + apply Nat.leb_gt in H10. by eapply IH.
Qed.

Lemma synthetic_issue_good (id : Z) (article : RawArticle) (t u : string) :
  good_issue (synthetic_issue id article t u).
Proof.
  unfold synthetic_issue, good_issue. simpl.
  destruct (get_source_bias (source_id_of article)); simpl;
    repeat (case_bool_decide; try congruence); simpl;
    eexists; (split; [reflexivity|]); vm_compute; lia.
Qed.

Lemma fallback_loop_good (rest : list RawArticle) (issues : list Issue) (id : Z) :
  Forall good_issue issues → (length issues < 8)%nat →
  Forall good_issue (fallback_loop rest issues id) ∧
  (length (fallback_loop rest issues id) <= 8)%nat.
Proof.
  revert issues id. induction rest as [|article rest IH]; intros issues id Hg Hl; simpl.
  - split; [done|lia].
  - destruct (title_and_url article) as [[t u]|]; [|by apply IH].
    assert (Forall good_issue (issues ++ [synthetic_issue id article t u])) as Hg'.
    { apply Forall_app. split; [done|]. constructor; [apply synthetic_issue_good|done]. }
    destruct (8 <=? _)%nat eqn:H8.
    + split; [done|]. rewrite length_app; simpl; lia.
    + apply Nat.leb_gt in H8. by apply IH.
Qed.

Lemma cluster_good (batch : list RawArticle) (issues : list Issue) :
  cluster batch = Ok issues →
  Forall good_issue issues ∧ (length issues <= 10)%nat.
Proof.
  unfold cluster. intros H.
  destruct (organic_loop batch batch [] [] 1) as [[org id]|e] eqn:Ho; simpl in H;
    [|discriminate].
  apply organic_loop_good in Ho as [Hg Hl]; [|done|simpl; lia].
  destruct (length org <? 5)%nat eqn:H5; injection H as <-.
  - apply Nat.ltb_lt in H5. destruct (fallback_loop_good (take 15 batch) org id Hg) as [??];
      [lia|]. split; [done|lia].
  - done.
Qed.

End Clusterer.

(** ** The issue list of the clusterer and its caps *)

(** Closes a decidable goal about concrete data by evaluation. *)
Ltac decide_by_eval := apply (bool_decide_unpack _); vm_compute; reflexivity.

(** A record with no url key, same title and other bias as [rec_a]. *)
Definition rec_nourl : RawArticle :=
  mkRaw (Some "Senate Passes Budget Bill"%string) None fox None.

(** A record with the url of [rec_a], another bias and a title sharing two
    keywords with it. *)
Definition rec_same_url : RawArticle :=
  mkRaw (Some "Senate budget vote delayed again"%string) (Some "u1"%string) fox None.

(** Empty and entirely malformed batches give an empty issue list. *)
Lemma organic_loop_malformed (all_articles rest : list RawArticle) (issues : list Issue)
    (seen : list (gset string)) (id : Z) :
  Forall (fun a => title_and_url a = None) rest →
  organic_loop all_articles rest issues seen id = Ok (issues, id).
Proof.
  revert seen. induction rest as [|a rest IH]; intros seen Hm; [done|].
  apply Forall_cons in Hm as [Ha Hm]. simpl. rewrite Ha. by apply IH.
Qed.

Lemma fallback_loop_malformed (rest : list RawArticle) (issues : list Issue) (id : Z) :
  Forall (fun a => title_and_url a = None) rest → fallback_loop rest issues id = issues.
Proof.
  revert id. induction rest as [|a rest IH]; intros id Hm; [done|].
  apply Forall_cons in Hm as [Ha Hm]. simpl. rewrite Ha. by apply IH.
Qed.

Lemma cluster_malformed (batch : list RawArticle) :
  Forall (fun a => title_and_url a = None) batch → cluster batch = Ok [].
Proof.
  intros Hm. unfold cluster. rewrite organic_loop_malformed by done. simpl.
  rewrite fallback_loop_malformed; [done|].
  apply Forall_forall. intros a Ha. apply elem_of_take in Ha as (i & Hi & _).
  rewrite Forall_lookup in Hm. by apply (Hm i).
Qed.

(** C1: every issue the clusterer emits, those of the organic pass and the
    synthetic fallback pass alike, has articles of at least two distinct
    biases. *)
Theorem cluster_issues_two_biases (batch : list RawArticle) (issues : list Issue) :
  cluster batch = Ok issues →
  Forall (fun i => ∃ l, articles i = Some l ∧ (2 <= length (biases_of l))%nat) issues.
Proof.
  intros H. apply cluster_good in H as [Hg _].
  eapply Forall_impl; [exact Hg|]. intros i (l & ? & ? & _). eauto.
Qed.

Lemma cluster_issues_two_biases_witness :
  ∃ issues, cluster [rec_a; rec_b] = Ok issues ∧
  Forall (fun i => ∃ l, articles i = Some l ∧ (2 <= length (biases_of l))%nat) issues.
Proof.
  eexists. split; [vm_compute; reflexivity|].
  apply (cluster_issues_two_biases [rec_a; rec_b]). vm_compute. reflexivity.
Defined.

(** C2 (counterexample): an issue emitted for a two-record batch has no
    [biases_covered] key. *)
Lemma cluster_issue_no_biases_covered :
  ∃ issues, cluster [rec_a; rec_b] = Ok issues ∧ issues ≠ [] ∧
  Forall (fun i => "biases_covered"%string ∉ issue_keys i) issues.
Proof. eexists. split; [vm_compute; reflexivity|]. split; [discriminate|decide_by_eval]. Qed.

(** C2 (amended): every issue the clusterer emits has exactly the keys id,
    headline, keywords and articles, and its articles span at least two
    distinct biases; there is no biases_covered key. *)
Theorem cluster_issue_fields (batch : list RawArticle) (issues : list Issue) :
  cluster batch = Ok issues →
  Forall (fun i => issue_keys i = ["id"; "headline"; "keywords"; "articles"]%string ∧
                   ∃ l, articles i = Some l ∧ (2 <= length (biases_of l))%nat) issues.
Proof.
  intros H. apply cluster_good in H as [Hg _].
  eapply Forall_impl; [exact Hg|]. intros i (l & Hl & ? & _).
  unfold issue_keys. rewrite Hl. eauto.
Qed.

Lemma cluster_issue_fields_witness :
  ∃ issues, cluster [rec_a; rec_b] = Ok issues ∧
  Forall (fun i => issue_keys i = ["id"; "headline"; "keywords"; "articles"]%string ∧
                   ∃ l, articles i = Some l ∧ (2 <= length (biases_of l))%nat) issues.
Proof.
  eexists. split; [vm_compute; reflexivity|].
  apply (cluster_issue_fields [rec_a; rec_b]). vm_compute. reflexivity.
Defined.

(** C8: a fetch cycle (the clusterer, or the fixed fallback list when it
    raises) emits at most 10 issues, each with at most 6 articles. *)
Theorem fetch_real_news_caps (batch : list RawArticle) :
  (length (fetch_real_news_from batch) <= 10)%nat ∧
  Forall (fun i => ∃ l, articles i = Some l ∧ (length l <= 6)%nat)
    (fetch_real_news_from batch).
Proof.
  unfold fetch_real_news_from.
  destruct (cluster batch) as [issues|e] eqn:H.
  - apply cluster_good in H as [Hg Hl]. split; [done|].
    eapply Forall_impl; [exact Hg|]. intros i (l & ? & _ & ?). eauto.
  - split; [simpl; lia|]. constructor; [|done].
    eexists. split; [reflexivity|]. simpl. lia.
Qed.

(** C9 (failing input): a record with a title but no url key, related to
    an earlier seed, makes the related-article scan read [other_article['url']]
    and raise [KeyError]; [fetch_real_news] then returns the fixed fallback
    list. Empty or entirely malformed batches do give [Ok []]
    ([cluster_malformed]). *)
Theorem cluster_missing_url_raises :
  cluster [rec_a; rec_nourl] = Raise (KeyError "url") ∧
  fetch_real_news_from [rec_a; rec_nourl] = get_fallback_issues.
Proof. split; vm_compute; reflexivity. Qed.

(** C5 (counterexample): two records with the same url both end up in the
    articles of the first issue. *)
Lemma cluster_keeps_duplicate_url :
  ∃ i issues, cluster [rec_a; rec_same_url] = Ok (i :: issues) ∧
  articles i = Some [mkArticle "Senate Passes Budget Bill" "CNN" Left "u1";
                     mkArticle "Senate budget vote delayed again" "Fox News" Right "u1"]%string.
Proof. do 2 eexists. split; vm_compute; reflexivity. Qed.

(** ** The keyword extractor *)

Lemma unique_loop_length (l seen acc : list string) :
  (length acc < 4)%nat → (length (unique_loop l seen acc) <= 4)%nat.
Proof.
  revert seen acc. induction l as [|kw l IH]; intros seen acc Hacc; simpl. { lia. }
  case_bool_decide; [by apply IH|].
  destruct (4 <=? length (acc ++ [kw]))%nat eqn:H4.
  - rewrite length_app; simpl. lia.
  - apply Nat.leb_gt in H4. by apply IH.
Qed.

(** C10: [extract_keywords] itself returns at most 4 keywords. *)
Theorem extract_keywords_at_most_4 (title : string) (description : option string) :
  (length (extract_keywords title description) <= 4)%nat.
Proof. unfold extract_keywords. apply unique_loop_length. simpl. lia. Qed.

(** C4 (counterexample): every word of the spec's example has at most three
    letters, so the result is not [cat; sat; mat]. *)
Lemma extract_keywords_cat_not_example :
  extract_keywords "The Cat Sat on the Mat" (Some ""%string) ≠ ["cat"; "sat"; "mat"]%string.
Proof. vm_compute. discriminate. Qed.

(** C4 (amended): the spec's example title gives the empty keyword list. *)
Theorem extract_keywords_cat_empty :
  extract_keywords "The Cat Sat on the Mat" (Some ""%string) = [].
Proof. vm_compute. reflexivity. Qed.

(** Position of the first occurrence of [x] in [l]. *)
Fixpoint index_of (x : string) (l : list string) : option nat :=
  match l with
  | [] => None
  | y :: r => if bool_decide (x = y) then Some 0%nat else S <$> index_of x r
  end.

(** The elements of [r] appear in [r] in the order of their first
    occurrences in [l]. *)
Definition first_occurrence_order (r l : list string) : Prop :=
  ∀ (i j : nat) (x y : string), r !! i = Some x → r !! j = Some y → (i < j)%nat →
  ∃ p q, index_of x l = Some p ∧ index_of y l = Some q ∧ (p < q)%nat.

Lemma index_of_elem (x : string) (l : list string) :
  x ∈ l ↔ ∃ p, index_of x l = Some p.
Proof.
  induction l as [|y l IH]; simpl.
  - split; [intros Hx; by apply not_elem_of_nil in Hx|by intros [??]].
  - rewrite elem_of_cons. case_bool_decide as Hxy.
    + split; [eauto|by left].
    + rewrite IH. split.
      * intros [?|[p ->]]; [done|]. by exists (S p).
      * intros [p' (p & Hp & _)%fmap_Some]. right. by exists p.
Qed.

Lemma index_of_cons_ne (x kw : string) (l : list string) :
  x ≠ kw → index_of x (kw :: l) = S <$> index_of x l.
Proof. intros Hne. simpl. by rewrite bool_decide_false. Qed.

Lemma order_cons_skip (r l : list string) (kw : string) :
  first_occurrence_order r l → (∀ x, x ∈ r → x ≠ kw) →
  first_occurrence_order r (kw :: l).
Proof.
  intros H Hne i j x y Hi Hj Hij.
  destruct (H i j x y Hi Hj Hij) as (p & q & Hp & Hq & Hpq).
  exists (S p), (S q).
  rewrite !index_of_cons_ne, Hp, Hq
    by (apply Hne; eapply list_elem_of_lookup_2; eassumption).
  split; [done|]. split; [done|lia].
Qed.

Lemma unique_loop_spec (l seen acc : list string) :
  ∃ r, unique_loop l seen acc = acc ++ r ∧ (∀ x, x ∈ r → x ∈ l ∧ x ∉ seen) ∧
       NoDup r ∧ first_occurrence_order r l.
Proof.
  revert seen acc. induction l as [|kw l IH]; intros seen acc; simpl.
  - exists []. rewrite app_nil_r. split; [done|]. split; [intros x Hx; by apply not_elem_of_nil in Hx|].
    split; [constructor|]. intros i j x y Hi. done.
  - case_bool_decide as Hseen.
    + destruct (IH seen acc) as (r & -> & Hr & Hnd & Hord). exists r.
      split; [done|]. split; [|split; [done|]].
      * intros x Hx. destruct (Hr x Hx). split; [by right|done].
      * apply order_cons_skip; [done|]. intros x Hx ->. by apply (Hr kw Hx).
    + destruct (4 <=? length (acc ++ [kw]))%nat.
      * exists [kw]. split; [done|].
        split; [intros x ->%list_elem_of_singleton; split; [left|done]|].
        split; [by apply NoDup_singleton|].
        intros i j x y Hi Hj Hij. apply lookup_lt_Some in Hj. simpl in Hj. lia.
      * destruct (IH (kw :: seen) (acc ++ [kw])) as (r & -> & Hr & Hnd & Hord).
        assert (∀ x, x ∈ r → x ≠ kw) as Hne.
        { intros x Hx ->. destruct (Hr kw Hx) as [_ Hn]. apply Hn. left. }
        exists (kw :: r). rewrite <-app_assoc. split; [done|]. split; [|split].
        -- intros x [->|Hx]%elem_of_cons; [split; [left|done]|].
           destruct (Hr x Hx) as [? Hn]. split; [by right|]. intros ?. apply Hn. by right.
        -- constructor; [|done]. intros Hkw. by apply (Hne kw).
        -- intros [|i] [|j] x y Hi Hj Hij; try lia; simpl in Hi, Hj.
           ++ injection Hi as <-. assert (y ∈ l) as Hy.
              { apply (Hr y). by eapply list_elem_of_lookup_2. }
              apply index_of_elem in Hy as [q Hq]. exists 0%nat, (S q).
              rewrite (index_of_cons_ne y), Hq
                by (apply Hne; eapply list_elem_of_lookup_2; exact Hj).
              simpl. rewrite bool_decide_true by done. split; [done|]. split; [done|lia].
           ++ apply (order_cons_skip r l kw Hord Hne i j x y Hi Hj). lia.
Qed.

Lemma index_of_filter (P : string → Prop) `{∀ w, Decision (P w)}
    (x y : string) (l : list string) (p q : nat) :
  P x → P y → index_of x (filter P l) = Some p → index_of y (filter P l) = Some q →
  (p < q)%nat →
  ∃ p' q', index_of x l = Some p' ∧ index_of y l = Some q' ∧ (p' < q')%nat.
Proof.
  intros Px Py. revert p q. induction l as [|w l IH]; intros p q Hp Hq Hpq; [done|].
  rewrite filter_cons in Hp, Hq. case_decide as Pw.
  - simpl in Hp, Hq. destruct (decide (x = w)) as [Hxw|Hxw].
    + subst w. rewrite bool_decide_true in Hp by done. injection Hp as <-.
      destruct (decide (y = x)) as [Hyw|Hyw];
        [rewrite bool_decide_true in Hq by done; injection Hq as <-; lia|].
      rewrite bool_decide_false in Hq by done.
      apply fmap_Some in Hq as (q0 & Hq0 & ->).
      assert (y ∈ l) as Hy.
      { apply (list_elem_of_filter P). apply index_of_elem. eauto. }
      apply index_of_elem in Hy as [q1 Hq1]. exists 0%nat, (S q1).
      rewrite (index_of_cons_ne y), Hq1 by done. simpl. rewrite bool_decide_true by done.
      split; [done|]. split; [done|lia].
    + rewrite bool_decide_false in Hp by done.
      apply fmap_Some in Hp as (p0 & Hp0 & ->).
      destruct (decide (y = w)) as [Hyw|Hyw];
        [rewrite bool_decide_true in Hq by done; injection Hq as <-; lia|].
      rewrite bool_decide_false in Hq by done.
      apply fmap_Some in Hq as (q0 & Hq0 & ->).
      destruct (IH p0 q0 Hp0 Hq0) as (p' & q' & Hp' & Hq' & ?); [lia|].
      exists (S p'), (S q'). rewrite !index_of_cons_ne, Hp', Hq' by done.
      split; [done|]. split; [done|lia].
  - assert (x ≠ w) by (intros ->; done). assert (y ≠ w) by (intros ->; done).
    destruct (IH p q Hp Hq Hpq) as (p' & q' & Hp' & Hq' & ?).
    exists (S p'), (S q'). rewrite !index_of_cons_ne, Hp', Hq' by done.
    split; [done|]. split; [done|lia].
Qed.

Lemma lower_char_idem (c : ascii) : Py.lower_char (Py.lower_char c) = Py.lower_char c.
Proof. destruct c as [[] [] [] [] [] [] [] []]; vm_compute; reflexivity. Qed.

Lemma split_chars_Forall (P : ascii → Prop) (cs cur : list ascii) :
  Forall P cs → Forall P cur → Forall (Forall P) (Py.split_chars cs cur).
Proof.
  revert cur. induction cs as [|c cs IH]; intros cur Hcs Hcur; simpl.
  - destruct cur; repeat constructor; by apply Forall_rev.
  - apply Forall_cons in Hcs as [Hc Hcs].
    destruct (Py.is_space c).
    + destruct cur; [by apply IH|]. constructor; [by apply Forall_rev|by apply IH].
    + apply IH; [done|by constructor].
Qed.

Lemma lstrip_chars_Forall (P : ascii → Prop) (chars l : list ascii) :
  Forall P l → Forall P (Py.lstrip_chars chars l).
Proof.
  induction l as [|c l IH]; intros Hl; simpl; [done|].
  apply Forall_cons in Hl as Hl'. destruct Hl' as [_ Hl'].
  case_bool_decide; [by apply IH|done].
Qed.

Lemma map_Forall_id (f : ascii → ascii) (l : list ascii) :
  Forall (fun c => f c = c) l → map f l = l.
Proof. induction 1; simpl; congruence. Qed.

(** Every cleaned word is lower case. *)
Lemma cleaned_words_lower (title : string) (description : option string) (w : string) :
  w ∈ cleaned_words title description → Py.lower w = w.
Proof.
  unfold cleaned_words, Py.split, keyword_text.
  set (P := fun c => Py.lower_char c = c).
  intros (s & -> & Hs)%list_elem_of_fmap.
  apply list_elem_of_fmap in Hs as (cs & -> & Hcs).
  unfold Py.lower in Hcs. rewrite list_ascii_of_string_of_list_ascii in Hcs.
  assert (Forall (Forall P) (Py.split_chars (map Py.lower_char
            (list_ascii_of_string (title +:+ " " +:+ default ""%string description))) []))
    as Hall.
  { apply split_chars_Forall; [|constructor].
    apply Forall_forall. intros c (c0 & -> & _)%list_elem_of_fmap. apply lower_char_idem. }
  rewrite Forall_forall in Hall. specialize (Hall cs Hcs).
  unfold Py.strip, Py.lower, Py.strip_chars.
  rewrite !list_ascii_of_string_of_list_ascii. f_equal.
  apply map_Forall_id. apply Forall_rev, lstrip_chars_Forall, Forall_rev,
    lstrip_chars_Forall, Hall.
Qed.

(** C3 (amended): every returned keyword has more than 3 characters, is not
    in the code's stop-word set (which lacks be, do, says, said, new and
    news), is alphabetic and lower case; no keyword is returned twice; and
    the keywords come in the order of their first occurrences among the
    cleaned words of the lowered text. *)
Theorem extract_keywords_purity (title : string) (description : option string) :
  (∀ w, w ∈ extract_keywords title description →
        (3 < String.length w)%nat ∧ (w ∉ stop_words) ∧ Py.isalpha w = true ∧
        Py.lower w = w) ∧
  NoDup (extract_keywords title description) ∧
  first_occurrence_order (extract_keywords title description)
    (cleaned_words title description).
Proof.
  unfold extract_keywords.
  set (K := filter (fun w => keep_word w = true) (cleaned_words title description)).
  destruct (unique_loop_spec K [] []) as (r & Hu & Hr & Hnd & Hord).
  rewrite Hu. simpl.
  assert (∀ w, w ∈ r → keep_word w = true ∧ w ∈ cleaned_words title description) as Hk.
  { intros w Hw. apply (list_elem_of_filter (fun w => keep_word w = true)). by apply Hr. }
  split; [|split; [done|]].
  - intros w Hw. destruct (Hk w Hw) as [Hkeep Hcw].
    unfold keep_word in Hkeep. apply andb_prop in Hkeep as [Hkeep Halpha].
    apply andb_prop in Hkeep as [Hlen Hstop].
    apply Nat.ltb_lt in Hlen. apply negb_true_iff, bool_decide_eq_false in Hstop.
    split; [done|]. split; [done|]. split; [done|]. by eapply cleaned_words_lower.
  - intros i j x y Hi Hj Hij.
    destruct (Hord i j x y Hi Hj Hij) as (p & q & Hp & Hq & Hpq).
    apply (index_of_filter (fun w => keep_word w = true) x y _ p q); try done.
    + apply Hk. by eapply list_elem_of_lookup_2.
    + apply Hk. by eapply list_elem_of_lookup_2.
Qed.

Lemma extract_keywords_purity_example :
  extract_keywords "Biden says Biden, again: news!" None
  = ["biden"; "says"; "again"; "news"]%string.
Proof. vm_compute. reflexivity. Qed.

(** C3 (counterexample): the word says, a member of the spec's stop-word
    set, is returned as a keyword; the code's stop-word set lacks it. *)
Lemma extract_keywords_returns_says :
  "says"%string ∈ extract_keywords "Biden says" None.
Proof. decide_by_eval. Qed.

(** ** The bias filter *)

(** C6: for preferences -1, 0 and 1 the filter returns a subsequence of
    the issue's articles, in their order: those of bias left or center
    for -1, those of bias right or center for 1, all of them for 0. *)
Theorem get_articles_by_bias_spec (issue : Issue) (l : list Article) (pref : Z) :
  articles issue = Some l → pref = -1 ∨ pref = 0 ∨ pref = 1 →
  ∃ r, get_articles_by_bias issue pref = Ok r ∧ r `sublist_of` l ∧
    (pref = -1 → r = filter (fun a => art_bias a = Left ∨ art_bias a = Center) l) ∧
    (pref = 1 → r = filter (fun a => art_bias a = Right ∨ art_bias a = Center) l) ∧
    (pref = 0 → r = l).
Proof.
  intros Hl Hp. unfold get_articles_by_bias. rewrite Hl.
  destruct Hp as [ -> | [ -> | -> ] ]; simpl; eexists; (split; [reflexivity|]).
  - split; [apply sublist_filter|]. split; [|split; lia]. intros _.
    apply list_filter_iff. intros a. rewrite !elem_of_cons, elem_of_nil.
    tauto.
  - split; [done|]. split; [lia|]. split; [lia|done].
  - split; [apply sublist_filter|]. split; [lia|]. split; [|lia]. intros _.
    apply list_filter_iff. intros a. rewrite !elem_of_cons, elem_of_nil.
    tauto.
Qed.

Definition art_l : Article := mkArticle "l" "L" Left "ul".
Definition art_c : Article := mkArticle "c" "C" Center "uc".
Definition art_r : Article := mkArticle "r" "R" Right "ur".

Lemma get_articles_by_bias_spec_witness :
  ∃ r, get_articles_by_bias (mkIssue 1 "h" [] (Some [art_r; art_l; art_c])) (-1) = Ok r ∧
    r `sublist_of` [art_r; art_l; art_c] ∧
    (-1 = -1 → r = filter (fun a => art_bias a = Left ∨ art_bias a = Center)
                     [art_r; art_l; art_c]) ∧
    (-1 = 1 → r = filter (fun a => art_bias a = Right ∨ art_bias a = Center)
                    [art_r; art_l; art_c]) ∧
    (-1 = 0 → r = [art_r; art_l; art_c]).
Proof.
  apply (get_articles_by_bias_spec (mkIssue 1 "h" [] (Some [art_r; art_l; art_c]))
           [art_r; art_l; art_c] (-1)); [reflexivity|lia].
Defined.

(** C7 (counterexample): an issue without the articles key makes the
    filter raise [KeyError]. *)
Lemma get_articles_by_bias_no_key_raises :
  get_articles_by_bias (mkIssue 1 "h" [] None) 0 = Raise (KeyError "articles").
Proof. reflexivity. Qed.

(** C7 (amended): an issue with an empty article list gives the empty
    result for every preference; an issue without the articles key raises
    [KeyError]. *)
Theorem get_articles_by_bias_empty (issue : Issue) (pref : Z) :
  (articles issue = Some [] → get_articles_by_bias issue pref = Ok []) ∧
  (articles issue = None → get_articles_by_bias issue pref = Raise (KeyError "articles")).
Proof.
  unfold get_articles_by_bias. split; intros ->; [|done].
  destruct (pref =? -1); [done|]. by destruct (pref =? 1).
Qed.

(** ** Title-based collapsing of seeds in the organic pass *)

(** The first (seed) article title of a later issue shares at most 3 of
    its first five lowered words with the lowered words of the seed title
    of an earlier issue. *)
Definition seeds_apart (issues : list Issue) : Prop :=
  ∀ (i j : nat) (Ii Ij : Issue), (i < j)%nat → issues !! i = Some Ii → issues !! j = Some Ij →
  ∃ ai li aj lj, articles Ii = Some (ai :: li) ∧ articles Ij = Some (aj :: lj) ∧
    (size (title_words (art_title aj) ∩ all_title_words (art_title ai)) <= 3)%nat.

(** Every issue has a seed article whose title word set is in [seen]. *)
Definition seeds_in (issues : list Issue) (seen : list (gset string)) : Prop :=
  ∀ (i : nat) (Ii : Issue), issues !! i = Some Ii →
  ∃ a l, articles Ii = Some (a :: l) ∧ all_title_words (art_title a) ∈ seen.

Lemma seeds_in_cons (issues : list Issue) (seen : list (gset string)) (s : gset string) :
  seeds_in issues seen → seeds_in issues (s :: seen).
Proof.
  intros H i Ii Hi. destruct (H i Ii Hi) as (a & l & ? & ?).
  exists a, l. split; [done|]. by right.
Qed.

Lemma organic_loop_seeds (all_articles rest : list RawArticle) (issues : list Issue)
    (seen : list (gset string)) (id : Z) (issues' : list Issue) (id' : Z) :
  seeds_in issues seen → seeds_apart issues →
  organic_loop all_articles rest issues seen id = Ok (issues', id') →
  seeds_apart issues'.
Proof.
  revert issues seen id. induction rest as [|article rest IH];
    intros issues seen id Hin Hap H; simpl in H.
  - by injection H as <- <-.
  - destruct (title_and_url article) as [[t u]|]; [|by eapply IH].
    destruct (existsb _ seen) eqn:Hex; [by eapply IH|].
    destruct (related_scan _ _ _ _ _) as [rel|e] eqn:Hscan; simpl in H; [|discriminate].
    assert (∀ s, s ∈ seen → (size (title_words t ∩ s) <= 3)%nat) as Hchk.
    { intros s Hs. destruct (decide (3 < size (title_words t ∩ s))%nat) as [Hgt|]; [|lia].
      exfalso. assert (existsb (fun seen => bool_decide (3 < size (title_words t ∩ seen))%nat)
                         seen = true) as Htrue; [|congruence].
      apply existsb_exists. exists s. split; [by apply list_elem_of_In|].
      by apply bool_decide_eq_true. }
    apply related_scan_app in Hscan as (new & -> & _).
    set (seed := mkArticle t (source_name_of "Unknown Source" article)
                   (get_source_bias (source_id_of article)) u) in *.
    set (I := mkIssue id (make_headline t)
                (take 4 (extract_keywords t (raw_description article)))
                (Some (take 6 ([seed] ++ new)))) in *.
    assert (seeds_in (issues ++ [I]) (all_title_words t :: seen)) as Hin'.
    { intros i Ii Hi. apply lookup_app_Some in Hi as [Hi|[Hlen Hi]].
      - by apply (seeds_in_cons issues seen _ Hin i).
      - apply list_lookup_singleton_Some in Hi as [_ <-].
        exists seed, (take 5 new). split; [done|]. by left. }
    assert (seeds_apart (issues ++ [I])) as Hap'.
    { intros i j Ii Ij Hij Hi Hj.
      apply lookup_app_Some in Hj as [Hj|[Hlen Hj]].
      - apply (Hap i j); [done| |done]. rewrite lookup_app_l in Hi; [done|].
        apply lookup_lt_Some in Hj. lia.
      - apply list_lookup_singleton_Some in Hj as [Hj0 <-].
        rewrite lookup_app_l in Hi by lia.
        destruct (Hin i Ii Hi) as (a & l & Ha & Hseen).
        exists a, l, seed, (take 5 new). split; [done|]. split; [done|].
        by apply Hchk. }
    revert H. destruct (2 <=? _)%nat; intros H.
    + revert H. destruct (10 <=? _)%nat; intros H; [by injection H as <- <-|].
      by eapply IH.
    + apply (IH issues (all_title_words t :: seen) id); [by apply seeds_in_cons|done|exact H].
Qed.

Lemma fallback_loop_prefix (rest : list RawArticle) (issues : list Issue) (id : Z) :
  issues `prefix_of` fallback_loop rest issues id.
Proof.
  revert issues id. induction rest as [|article rest IH]; intros issues id; simpl; [done|].
  destruct (title_and_url article) as [[t u]|]; [|apply IH].
  destruct (8 <=? _)%nat; [by apply prefix_app_r|].
  etrans; [|apply IH]. by apply prefix_app_r.
Qed.

(** C5 (amended): records are not collapsed by url (see
    [cluster_keeps_duplicate_url]); they are collapsed by title only. The
    issues of the organic pass come first in the clusterer's output, and
    the seed title of a later one shares at most 3 of its first five
    lowered words with the lowered words of an earlier one's seed title. *)
Theorem cluster_seeds_apart (batch : list RawArticle) (issues : list Issue) :
  cluster batch = Ok issues →
  ∃ org id, organic_loop batch batch [] [] 1 = Ok (org, id) ∧ org `prefix_of` issues ∧
            seeds_apart org.
Proof.
  unfold cluster. intros H.
  destruct (organic_loop batch batch [] [] 1) as [[org id]|e] eqn:Ho; simpl in H;
    [|discriminate].
  exists org, id. split; [done|]. split.
  - destruct (length org <? 5)%nat; injection H as <-; [apply fallback_loop_prefix|done].
  - eapply organic_loop_seeds; [| |exact Ho].
    + intros i Ii Hi. by rewrite lookup_nil in Hi.
    + intros i j Ii Ij _ Hi. by rewrite lookup_nil in Hi.
Qed.

Lemma cluster_seeds_apart_witness :
  ∃ issues, cluster [rec_a; rec_same_url] = Ok issues ∧
  ∃ org id, organic_loop [rec_a; rec_same_url] [rec_a; rec_same_url] [] [] 1 = Ok (org, id) ∧
            org `prefix_of` issues ∧ seeds_apart org.
Proof.
  eexists. split; [vm_compute; reflexivity|].
  apply (cluster_seeds_apart [rec_a; rec_same_url]). vm_compute. reflexivity.
Defined.

(** ** Further properties of the clusterer *)

Lemma organic_loop_Forall (P : Issue → Prop) (all_articles rest : list RawArticle)
    (issues : list Issue) (seen : list (gset string)) (id : Z) (issues' : list Issue) (id' : Z) :
  (∀ article t u rel id0,
     article ∈ all_articles → title_and_url article = Some (t, u) →
     related_scan article (get_source_bias (source_id_of article))
       (extract_keywords t (raw_description article)) all_articles
       [mkArticle t (source_name_of "Unknown Source" article)
          (get_source_bias (source_id_of article)) u] = Ok rel →
     P (mkIssue id0 (make_headline t) (take 4 (extract_keywords t (raw_description article)))
          (Some (take 6 rel)))) →
  rest `sublist_of` all_articles →
  Forall P issues → organic_loop all_articles rest issues seen id = Ok (issues', id') →
  Forall P issues'.
Proof.
  intros HP. revert issues seen id.
  induction rest as [|article rest IH]; intros issues seen id Hsub Hg H; simpl in H.
  - by injection H as <- <-.
  - assert (rest `sublist_of` all_articles) as Hsub'.
    { etrans; [|exact Hsub]. by apply sublist_cons. }
    assert (article ∈ all_articles) as Hin.
    { eapply elem_of_sublist; [|exact Hsub]. left. }
    destruct (title_and_url article) as [[t u]|] eqn:Htu; [|by eapply IH].
    destruct (existsb _ _); [by eapply IH|].
    destruct (related_scan _ _ _ _ _) as [rel|e] eqn:Hscan; simpl in H; [|discriminate].
    revert H. destruct (2 <=? _)%nat; intros H; [|by eapply IH].
    assert (Forall P (issues ++ [mkIssue id (make_headline t)
              (take 4 (extract_keywords t (raw_description article)))
              (Some (take 6 rel))])) as Hg'.
    { apply Forall_app. split; [done|]. constructor; [|done]. by eapply HP. }
    revert H. destruct (10 <=? _)%nat; intros H; [by injection H as <- <-|].
    by eapply IH.
Qed.

(** [fallback_loop] appends synthetic issues of records of [rest] only. *)
Lemma fallback_loop_app (rest : list RawArticle) (issues : list Issue) (id : Z) :
  ∃ new, fallback_loop rest issues id = issues ++ new ∧
    Forall (fun i => ∃ id0 a t u, a ∈ rest ∧ title_and_url a = Some (t, u) ∧
                                  i = synthetic_issue id0 a t u) new.
Proof.
  revert issues id. induction rest as [|article rest IH]; intros issues id; simpl.
  - exists []. by rewrite app_nil_r.
  - destruct (title_and_url article) as [[t u]|] eqn:Htu.
    + assert (Forall (fun i => ∃ id0 a t u, a ∈ article :: rest ∧
                 title_and_url a = Some (t, u) ∧ i = synthetic_issue id0 a t u)
                [synthetic_issue id article t u]) as Hs.
      { constructor; [|done]. exists id, article, t, u. split; [left|done]. }
      destruct (8 <=? _)%nat.
      * by eexists.
      * destruct (IH (issues ++ [synthetic_issue id article t u]) (id + 1))
          as (new & -> & Hnew).
        exists (synthetic_issue id article t u :: new). rewrite <-app_assoc.
        split; [done|]. constructor; [by inversion Hs|].
        eapply Forall_impl; [exact Hnew|]. intros i (id0 & a & t' & u' & ? & ?).
        exists id0, a, t', u'. split; [by right|done].
    + destruct (IH issues id) as (new & -> & Hnew). exists new. split; [done|].
      eapply Forall_impl; [exact Hnew|]. intros i (id0 & a & t' & u' & ? & ?).
      exists id0, a, t', u'. split; [by right|done].
Qed.

(** The clusterer's output is the organic issues followed by synthetic
    issues of records among the first 15, the latter only when the organic
    pass gave fewer than 5 issues. *)
Lemma cluster_decompose (batch : list RawArticle) (issues : list Issue) :
  cluster batch = Ok issues →
  ∃ org id fb, organic_loop batch batch [] [] 1 = Ok (org, id) ∧ issues = org ++ fb ∧
    (fb ≠ [] → (length org < 5)%nat) ∧
    Forall (fun i => ∃ id0 a t u, a ∈ take 15 batch ∧ title_and_url a = Some (t, u) ∧
                                  i = synthetic_issue id0 a t u) fb.
Proof.
  unfold cluster. intros H.
  destruct (organic_loop batch batch [] [] 1) as [[org id]|e] eqn:Ho; simpl in H;
    [|discriminate].
  revert H. destruct (length org <? 5)%nat eqn:H5; intros H; injection H as <-.
  - destruct (fallback_loop_app (take 15 batch) org id) as (fb & -> & Hfb).
    exists org, id, fb. apply Nat.ltb_lt in H5. repeat split; auto.
  - exists org, id, []. rewrite app_nil_r. repeat split; auto. by intros [].
Qed.

(** Issue ids are 1, 2, 3, ... in list order. *)
Definition ids_sequential (issues : list Issue) : Prop :=
  ∀ (k : nat) (i : Issue), issues !! k = Some i → issue_id i = Z.of_nat k + 1.

Lemma ids_sequential_snoc (issues : list Issue) (i : Issue) :
  ids_sequential issues → issue_id i = Z.of_nat (length issues) + 1 →
  ids_sequential (issues ++ [i]).
Proof.
  intros Hs Hi k j Hk. apply lookup_app_Some in Hk as [Hk|[Hlen Hk]]; [by apply Hs|].
  apply list_lookup_singleton_Some in Hk as [Hk0 <-].
  rewrite Hi. assert (k = length issues) as -> by lia. done.
Qed.

Lemma organic_loop_ids (all_articles rest : list RawArticle) (issues : list Issue)
    (seen : list (gset string)) (id : Z) (issues' : list Issue) (id' : Z) :
  ids_sequential issues → id = Z.of_nat (length issues) + 1 →
  organic_loop all_articles rest issues seen id = Ok (issues', id') →
  ids_sequential issues' ∧ id' = Z.of_nat (length issues') + 1.
Proof.
  revert issues seen id. induction rest as [|article rest IH];
    intros issues seen id Hs Hid H; simpl in H.
  - by injection H as <- <-.
  - destruct (title_and_url article) as [[t u]|]; [|by eapply IH].
    destruct (existsb _ _); [by eapply IH|].
    destruct (related_scan _ _ _ _ _) as [rel|e]; simpl in H; [|discriminate].
    revert H. destruct (2 <=? _)%nat; intros H; [|by eapply IH].
    set (I := mkIssue id (make_headline t)
                (take 4 (extract_keywords t (raw_description article)))
                (Some (take 6 rel))) in *.
    assert (ids_sequential (issues ++ [I])) by (by apply ids_sequential_snoc).
    assert (id + 1 = Z.of_nat (length (issues ++ [I])) + 1)
      by (rewrite length_app; simpl; lia).
    revert H. destruct (10 <=? _)%nat; intros H; [by injection H as <- <-|].
    by eapply IH.
Qed.

Lemma fallback_loop_ids (rest : list RawArticle) (issues : list Issue) (id : Z) :
  ids_sequential issues → id = Z.of_nat (length issues) + 1 →
  ids_sequential (fallback_loop rest issues id).
Proof.
  revert issues id. induction rest as [|article rest IH]; intros issues id Hs Hid; simpl;
    [done|].
  destruct (title_and_url article) as [[t u]|]; [|by apply IH].
  assert (ids_sequential (issues ++ [synthetic_issue id article t u]))
    by (by apply ids_sequential_snoc).
  destruct (8 <=? _)%nat; [done|].
  apply IH; [done|]. rewrite length_app; simpl; lia.
Qed.

(** The issues the clusterer returns have the ids 1, 2, ..., n in order,
    the synthetic issues continuing the numbering of the organic ones. *)
Theorem cluster_ids_sequential (batch : list RawArticle) (issues : list Issue) :
  cluster batch = Ok issues →
  ∀ (k : nat) (i : Issue), issues !! k = Some i → issue_id i = Z.of_nat k + 1.
Proof.
  unfold cluster. intros H.
  destruct (organic_loop batch batch [] [] 1) as [[org id]|e] eqn:Ho; simpl in H;
    [|discriminate].
  apply organic_loop_ids in Ho as [Hs Hid];
    [|intros k i Hk; by rewrite lookup_nil in Hk|done].
  revert H. destruct (length org <? 5)%nat; intros H; injection H as <-; [|done].
  by apply fallback_loop_ids.
Qed.

Lemma cluster_ids_sequential_witness :
  ∃ issues, cluster [rec_a; rec_b] = Ok issues ∧
  ∀ (k : nat) (i : Issue), issues !! k = Some i → issue_id i = Z.of_nat k + 1.
Proof.
  eexists. split; [vm_compute; reflexivity|].
  apply (cluster_ids_sequential [rec_a; rec_b]). vm_compute. reflexivity.
Defined.

Lemma string_length_append (s1 s2 : string) :
  String.length (s1 +:+ s2) = (String.length s1 + String.length s2)%nat.
Proof. induction s1 as [|c s1 IH]; [done|]. change (String c s1 +:+ s2) with (String c (s1 +:+ s2)). simpl. lia. Qed.

Lemma substring_0_length (n : nat) (s : string) :
  (String.length (substring 0 n s) <= n)%nat.
Proof.
  revert n. induction s as [|c s IH]; intros [|n]; simpl; try lia.
  specialize (IH n). lia.
Qed.

(** The headline built from a title: the title itself when it has at most
    60 characters, otherwise its first 60 characters and three dots; never
    more than 63 characters. *)
Definition headline_of (t h : string) : Prop :=
  (String.length t <= 60 → h = t)%nat ∧
  (60 < String.length t → h = substring 0 60 t +:+ "...")%nat ∧
  (String.length h <= 63)%nat.

Lemma make_headline_spec (t : string) : headline_of t (make_headline t).
Proof.
  unfold headline_of, make_headline.
  destruct (60 <? String.length t)%nat eqn:H60.
  - apply Nat.ltb_lt in H60. split; [lia|]. split; [done|].
    rewrite string_length_append. pose proof (substring_0_length 60 t). simpl. lia.
  - apply Nat.ltb_ge in H60. split; [done|]. split; [lia|lia].
Qed.

(** Every issue of the clusterer is headed by the title of its first
    article (cut to 60 characters plus three dots when longer, so at most
    63 characters) and has at most 4 keywords. *)
Theorem cluster_headline_keywords (batch : list RawArticle) (issues : list Issue) :
  cluster batch = Ok issues →
  Forall (fun i => ∃ a l, articles i = Some (a :: l) ∧ headline_of (art_title a) (headline i) ∧
                          (length (keywords i) <= 4)%nat) issues.
Proof.
  intros H. apply cluster_decompose in H as (org & id & fb & Ho & -> & _ & Hfb).
  apply Forall_app. split.
  - eapply organic_loop_Forall; [|done|constructor|exact Ho].
    intros article t u rel id0 _ _ Hscan. apply related_scan_app in Hscan as (new & -> & _).
    simpl. do 2 eexists. split; [reflexivity|]. split; [apply make_headline_spec|].
    rewrite length_take. lia.
  - eapply Forall_impl; [exact Hfb|]. intros i (id0 & a & t & u & _ & _ & ->).
    unfold synthetic_issue. simpl. do 2 eexists. split; [reflexivity|].
    split; [apply make_headline_spec|]. rewrite length_take. lia.
Qed.

Lemma cluster_headline_keywords_witness :
  ∃ issues, cluster [rec_a; rec_b] = Ok issues ∧
  Forall (fun i => ∃ a l, articles i = Some (a :: l) ∧ headline_of (art_title a) (headline i) ∧
                          (length (keywords i) <= 4)%nat) issues.
Proof.
  eexists. split; [vm_compute; reflexivity|].
  apply (cluster_headline_keywords [rec_a; rec_b]). vm_compute. reflexivity.
Defined.

(** In every issue of the organic pass the first article is the seed and
    every further article has a bias other than the seed's; there are at
    most 5 of them. *)
Theorem organic_issues_other_biases (batch : list RawArticle) (org : list Issue) (id : Z) :
  organic_loop batch batch [] [] 1 = Ok (org, id) →
  Forall (fun i => ∃ a l, articles i = Some (a :: l) ∧
                          Forall (fun x => art_bias x ≠ art_bias a) l ∧ (length l <= 5)%nat) org.
Proof.
  intros Ho. eapply organic_loop_Forall; [|done|constructor|exact Ho].
  intros article t u rel id0 _ _ Hscan. apply related_scan_app in Hscan as (new & -> & Hnew).
  simpl. do 2 eexists. split; [reflexivity|]. split.
  - by apply Forall_take.
  - rewrite length_take. lia.
Qed.

Lemma organic_issues_other_biases_witness :
  ∃ org id, organic_loop [rec_a; rec_b] [rec_a; rec_b] [] [] 1 = Ok (org, id) ∧
  Forall (fun i => ∃ a l, articles i = Some (a :: l) ∧
                          Forall (fun x => art_bias x ≠ art_bias a) l ∧ (length l <= 5)%nat) org.
Proof.
  do 2 eexists. split; [vm_compute; reflexivity|].
  eapply (organic_issues_other_biases [rec_a; rec_b]). vm_compute. reflexivity.
Defined.

Lemma synthetic_issue_shape (id : Z) (article : RawArticle) (t u : string) :
  title_and_url article = Some (t, u) →
  ∃ a b c, articles (synthetic_issue id article t u) = Some [a; b; c] ∧
    art_title a = t ∧ NoDup [art_bias a; art_bias b; art_bias c] ∧
    art_url a = u ∧ art_url b = u ∧ art_url c = u ∧ u ≠ ""%string.
Proof.
  intros Htu. assert (u ≠ ""%string) as Hu.
  { unfold title_and_url, Py.truthy in Htu.
    destruct (raw_title article), (raw_url article) as [u'|]; try discriminate;
      repeat case_bool_decide; try discriminate; congruence. }
  unfold synthetic_issue. simpl.
  destruct (get_source_bias (source_id_of article)); simpl;
    repeat (case_bool_decide; try congruence); simpl;
    do 3 eexists; (split; [reflexivity|]); repeat split; try done; decide_by_eval.
Qed.

(** The clusterer returns the organic issues followed by synthetic issues,
    the latter only when the organic pass gave fewer than 5 issues. Each
    synthetic issue has exactly 3 articles: the real record first, then
    placeholders, one article per bias, all three with the record's
    (non-empty) url. *)
Theorem cluster_synthetic_shape (batch : list RawArticle) (issues : list Issue) :
  cluster batch = Ok issues →
  ∃ org id fb, organic_loop batch batch [] [] 1 = Ok (org, id) ∧ issues = org ++ fb ∧
    (fb ≠ [] → (length org < 5)%nat) ∧
    Forall (fun i => ∃ a b c, articles i = Some [a; b; c] ∧
              NoDup [art_bias a; art_bias b; art_bias c] ∧
              art_url b = art_url a ∧ art_url c = art_url a ∧ art_url a ≠ ""%string) fb.
Proof.
  intros H. apply cluster_decompose in H as (org & id & fb & Ho & -> & H5 & Hfb).
  exists org, id, fb. repeat split; [done|done|].
  eapply Forall_impl; [exact Hfb|]. intros i (id0 & a & t & u & _ & Htu & ->).
  destruct (synthetic_issue_shape id0 a t u Htu)
    as (x & y & z & Hs & _ & Hnd & Hx & Hy & Hz & Hu).
  exists x, y, z. repeat split; try done; congruence.
Qed.

Lemma cluster_synthetic_shape_witness :
  ∃ issues, cluster [rec_a] = Ok issues ∧
  ∃ org id fb, organic_loop [rec_a] [rec_a] [] [] 1 = Ok (org, id) ∧ issues = org ++ fb ∧
    (fb ≠ [] → (length org < 5)%nat) ∧
    Forall (fun i => ∃ a b c, articles i = Some [a; b; c] ∧
              NoDup [art_bias a; art_bias b; art_bias c] ∧
              art_url b = art_url a ∧ art_url c = art_url a ∧ art_url a ≠ ""%string) fb.
Proof.
  eexists. split; [vm_compute; reflexivity|].
  apply (cluster_synthetic_shape [rec_a]). vm_compute. reflexivity.
Defined.

Lemma related_scan_raise (article : RawArticle) (bias : Bias) (kws : list string)
    (others : list RawArticle) (acc : list Article) (e : PyExc) :
  related_scan article bias kws others acc = Raise e →
  e = KeyError "url" ∧
  ∃ o, o ∈ others ∧ raw_url o = None ∧ Py.truthy (raw_title o) ≠ None.
Proof.
  revert acc. induction others as [|o others IH]; intros acc H; simpl in H; [done|].
  assert (∀ acc', related_scan article bias kws others acc' = Raise e →
            e = KeyError "url" ∧
            ∃ o', o' ∈ o :: others ∧ raw_url o' = None ∧ Py.truthy (raw_title o') ≠ None)
    as IH'.
  { intros acc' H'. destruct (IH acc' H') as [? (o' & ? & ? & ?)].
    split; [done|]. exists o'. split; [by right|done]. }
  case_bool_decide; [by eapply IH'|].
  destruct (Py.truthy (raw_title o)) as [ot|] eqn:Hot; [|by eapply IH'].
  case_bool_decide; [|by eapply IH'].
  case_bool_decide; [|by eapply IH'].
  destruct (raw_url o) as [ou|] eqn:Hou.
  - revert H. destruct (_ && _); intros H; [discriminate|by eapply IH'].
  - injection H as <-. split; [done|]. exists o. split; [left|]. split; [done|]. by rewrite Hot.
Qed.

Lemma organic_loop_raise (all_articles rest : list RawArticle) (issues : list Issue)
    (seen : list (gset string)) (id : Z) (e : PyExc) :
  organic_loop all_articles rest issues seen id = Raise e →
  e = KeyError "url" ∧
  ∃ o, o ∈ all_articles ∧ raw_url o = None ∧ Py.truthy (raw_title o) ≠ None.
Proof.
  revert issues seen id. induction rest as [|article rest IH]; intros issues seen id H;
    simpl in H; [done|].
  destruct (title_and_url article) as [[t u]|]; [|by eapply IH].
  destruct (existsb _ _); [by eapply IH|].
  destruct (related_scan _ _ _ _ _) as [rel|e'] eqn:Hscan; simpl in H.
  - revert H. destruct (2 <=? _)%nat; intros H; [|by eapply IH].
    revert H. destruct (10 <=? _)%nat; intros H; [discriminate|by eapply IH].
  - injection H as ->. by eapply related_scan_raise.
Qed.

(** The clusterer raises only [KeyError] on url, and only when the batch
    has a record with a truthy title and no url key. *)
Theorem cluster_raise_missing_url (batch : list RawArticle) (e : PyExc) :
  cluster batch = Raise e →
  e = KeyError "url" ∧
  ∃ o, o ∈ batch ∧ raw_url o = None ∧ Py.truthy (raw_title o) ≠ None.
Proof.
  unfold cluster. intros H.
  destruct (organic_loop batch batch [] [] 1) as [[org id]|e'] eqn:Ho; simpl in H.
  - revert H. destruct (length org <? 5)%nat; discriminate.
  - injection H as ->. by eapply organic_loop_raise.
Qed.

Lemma cluster_raise_missing_url_witness :
  cluster [rec_a; rec_nourl] = Raise (KeyError "url") ∧
  KeyError "url" = KeyError "url" ∧
  ∃ o, o ∈ [rec_a; rec_nourl] ∧ raw_url o = None ∧ Py.truthy (raw_title o) ≠ None.
Proof.
  split; [vm_compute; reflexivity|].
  apply (cluster_raise_missing_url [rec_a; rec_nourl]). vm_compute. reflexivity.
Defined.

(** ** Further properties of the keyword extractor and the bias lookup *)

Lemma unique_loop_complete (l seen acc : list string) :
  (∀ x, x ∈ seen → x ∈ acc) →
  (length (unique_loop l seen acc) < 4)%nat →
  ∀ w, w ∈ l → w ∈ unique_loop l seen acc.
Proof.
  revert seen acc. induction l as [|kw l IH]; intros seen acc Hseen Hlen w Hw; simpl in *.
  - by apply not_elem_of_nil in Hw.
  - apply elem_of_cons in Hw.
    case_bool_decide as Hkw.
    + destruct Hw as [->|Hw]; [|by apply IH].
      destruct (unique_loop_spec l seen acc) as (r & Hr & _). rewrite Hr.
      apply elem_of_app. left. by apply Hseen.
    + revert Hlen. destruct (4 <=? length (acc ++ [kw]))%nat eqn:H4; intros Hlen.
      * apply Nat.leb_le in H4. lia.
      * destruct Hw as [->|Hw].
        -- destruct (unique_loop_spec l (kw :: seen) (acc ++ [kw])) as (r & Hr & _).
           rewrite Hr. apply elem_of_app. left. apply elem_of_app. right. left.
        -- apply IH; [|done|done]. intros x [->|Hx]%elem_of_cons.
           ++ apply elem_of_app. right. left.
           ++ apply elem_of_app. left. by apply Hseen.
Qed.

(** When [extract_keywords] returns fewer than 4 keywords, it returns every
    cleaned word that passes its filter (more than 3 characters, not a stop
    word, alphabetic). *)
Theorem extract_keywords_complete (title : string) (description : option string) :
  (length (extract_keywords title description) < 4)%nat →
  ∀ w, w ∈ cleaned_words title description → keep_word w = true →
       w ∈ extract_keywords title description.
Proof.
  intros Hlen w Hw Hk. unfold extract_keywords in *.
  apply unique_loop_complete; [by intros x Hx%not_elem_of_nil..|done|].
  by apply list_elem_of_filter.
Qed.

Lemma extract_keywords_complete_witness :
  (length (extract_keywords "Budget vote" None) < 4)%nat ∧
  ∀ w, w ∈ cleaned_words "Budget vote" None → keep_word w = true →
       w ∈ extract_keywords "Budget vote" None.
Proof.
  split; [vm_compute; lia|].
  apply (extract_keywords_complete "Budget vote" None). vm_compute. lia.
Defined.

(** [extract_keywords] returns the empty list exactly when no cleaned word
    of the text passes its filter. *)
Theorem extract_keywords_empty_iff (title : string) (description : option string) :
  extract_keywords title description = [] ↔
  ∀ w, w ∈ cleaned_words title description → keep_word w = false.
Proof.
  split.
  - intros Hnil w Hw. destruct (keep_word w) eqn:Hk; [|done].
    pose proof (extract_keywords_complete title description) as Hc.
    rewrite Hnil in Hc. exfalso. apply (not_elem_of_nil w), Hc; [simpl; lia|done|done].
  - intros Hnone. unfold extract_keywords.
    assert (filter (fun w => keep_word w = true) (cleaned_words title description) = [])
      as ->; [|done].
    apply elem_of_nil_inv. intros x Hx.
    apply list_elem_of_filter in Hx as [Hk Hx]. rewrite Hnone in Hk; [discriminate|done].
Qed.

Lemma lower_idem (s : string) : Py.lower (Py.lower s) = Py.lower s.
Proof.
  unfold Py.lower. rewrite list_ascii_of_string_of_list_ascii, map_map.
  f_equal. apply map_ext. apply lower_char_idem.
Qed.

Lemma lower_empty (s : string) : Py.lower s = ""%string ↔ s = ""%string.
Proof. destruct s; simpl; split; done. Qed.

(** The bias lookup is case-insensitive: source ids equal up to ASCII case
    get the same bias. *)
Theorem get_source_bias_case_insensitive (s1 s2 : string) :
  Py.lower s1 = Py.lower s2 → get_source_bias s1 = get_source_bias s2.
Proof.
  intros Hl. unfold get_source_bias.
  assert (s1 = ""%string ↔ s2 = ""%string) as He.
  { rewrite <-(lower_empty s1), <-(lower_empty s2), Hl. done. }
  destruct (decide (s1 = ""%string)) as [H1|H1].
  - assert (s2 = ""%string) as H2 by (by apply He).
    rewrite (bool_decide_true _ H1), (bool_decide_true _ H2). done.
  - assert (s2 ≠ ""%string) as H2 by (intros H2; by apply H1, He).
    rewrite (bool_decide_false _ H1), (bool_decide_false _ H2). by rewrite Hl.
Qed.

Lemma get_source_bias_case_insensitive_witness :
  Py.lower "Fox-News" = Py.lower "fox-news" ∧ get_source_bias "Fox-News" = get_source_bias "fox-news".
Proof.
  split; [vm_compute; reflexivity|].
  apply get_source_bias_case_insensitive. vm_compute. reflexivity.
Defined.

(** ** The news cache *)

(** A batch fetched on a cache miss is saved with the time of the save; until
    30 minutes after that time (and at any earlier time) [fetch_real_news]
    serves it from the cache whatever the API would return, from then on it
    clusters the new batch again. *)
Theorem fetch_real_news_cache_round_trip (f : CacheFile) (t1 s1 : Z)
    (batch : list RawArticle) (issues : list Issue) :
  cluster batch = Ok issues → issues ≠ [] →
  (∀ cached, load_cache f t1 = Some cached → cached = []) →
  fetch_real_news f t1 s1 batch = (issues, save_cache issues s1) ∧
  ∀ t2 s2 batch',
    (t2 - s1 < cache_duration →
       fetch_real_news (save_cache issues s1) t2 s2 batch' = (issues, save_cache issues s1)) ∧
    (cache_duration <= t2 - s1 →
       fst (fetch_real_news (save_cache issues s1) t2 s2 batch') = fetch_real_news_from batch').
Proof.
  intros Hc Hne Hmiss. split.
  - unfold fetch_real_news.
    destruct (load_cache f t1) as [[|c cs]|] eqn:E.
    + by rewrite Hc.
    + by specialize (Hmiss _ eq_refl).
    + by rewrite Hc.
  - intros t2 s2 batch'. unfold fetch_real_news, load_cache, save_cache. simpl. split.
    + intros Hlt. apply Z.ltb_lt in Hlt. rewrite Hlt.
      destruct issues as [|i is]; [done|]. reflexivity.
    + intros Hge. assert ((t2 - s1 <? cache_duration) = false) as -> by (apply Z.ltb_ge; lia).
      unfold fetch_real_news_from. by destruct (cluster batch').
Qed.

Lemma fetch_real_news_cache_round_trip_witness :
  ∃ issues, cluster [rec_a; rec_b] = Ok issues ∧ issues ≠ [] ∧
  fetch_real_news NoCacheFile 0 0 [rec_a; rec_b] = (issues, save_cache issues 0) ∧
  ∀ t2 s2 batch',
    (t2 - 0 < cache_duration →
       fetch_real_news (save_cache issues 0) t2 s2 batch' = (issues, save_cache issues 0)) ∧
    (cache_duration <= t2 - 0 →
       fst (fetch_real_news (save_cache issues 0) t2 s2 batch') = fetch_real_news_from batch').
Proof.
  eexists. split; [vm_compute; reflexivity|]. split; [discriminate|].
  apply fetch_real_news_cache_round_trip.
  - vm_compute. reflexivity.
  - discriminate.
  - intros cached Hl. vm_compute in Hl. discriminate Hl.
Defined.

(** [fetch_real_news] either serves a non-empty issue list read from a cache
    entry less than 30 minutes old and leaves the file alone, or returns what
    the clusterer gives for the fetched batch ([fetch_real_news_from]); then
    the cache file is replaced only by the clusterer's own issues stamped
    with the save time, and is left alone when the fallback issues are
    returned. *)
Theorem fetch_real_news_served (f : CacheFile) (now_load now_save : Z)
    (batch : list RawArticle) :
  (∃ cache_time cached, f = CacheObject (Some cache_time) (Some cached) ∧ cached ≠ [] ∧
     now_load - cache_time < cache_duration ∧
     fetch_real_news f now_load now_save batch = (cached, f)) ∨
  (fst (fetch_real_news f now_load now_save batch) = fetch_real_news_from batch ∧
   (snd (fetch_real_news f now_load now_save batch) = f ∨
    ∃ issues, cluster batch = Ok issues ∧
      snd (fetch_real_news f now_load now_save batch) = save_cache issues now_save)).
Proof.
  assert (fst (match cluster batch with
               | Ok issues => (issues, save_cache issues now_save)
               | Raise _ => (get_fallback_issues, f) end) = fetch_real_news_from batch ∧
          (snd (match cluster batch with
               | Ok issues => (issues, save_cache issues now_save)
               | Raise _ => (get_fallback_issues, f) end) = f ∨
           ∃ issues, cluster batch = Ok issues ∧
             snd (match cluster batch with
               | Ok issues => (issues, save_cache issues now_save)
               | Raise _ => (get_fallback_issues, f) end) = save_cache issues now_save)) as Hf.
  { unfold fetch_real_news_from. destruct (cluster batch) as [is|e]; simpl.
    - split; [done|]. right. by exists is.
    - split; [done|]. by left. }
  unfold fetch_real_news.
  destruct f as [| |[ct|] cached]; simpl; try (right; exact Hf).
  destruct (now_load - ct <? cache_duration) eqn:Ht; [|right; exact Hf].
  destruct cached as [[|c cs]|]; simpl; [right; exact Hf| |right; exact Hf].
  left. exists ct, (c :: cs). apply Z.ltb_lt in Ht. done.
Qed.

(** ** The analytics log *)

Section AnalyticsLemmas.
Import Analytics.

Lemma click_lookup_set_same (url : string) (v : Z) (cs : list (string * Z)) :
  click_lookup url (click_set url v cs) = Some v.
Proof.
  induction cs as [|[k w] r IH]; simpl.
  - by rewrite bool_decide_true.
  - case_bool_decide as Hk; simpl.
    + by rewrite bool_decide_true.
    + by rewrite bool_decide_false.
Qed.

Lemma click_lookup_set_other (u url : string) (v : Z) (cs : list (string * Z)) :
  u ≠ url → click_lookup u (click_set url v cs) = click_lookup u cs.
Proof.
  intros Hu. induction cs as [|[k w] r IH]; simpl.
  - rewrite bool_decide_false; [done|]. intros ->. done.
  - case_bool_decide as Hk; simpl.
    + subst k. simpl. rewrite bool_decide_false; [done|intros ->; done].
    + by rewrite IH.
Qed.

Lemma click_lookup_None (url : string) (cs : list (string * Z)) :
  click_lookup url cs = None ↔ url ∉ map fst cs.
Proof.
  induction cs as [|[k w] r IH]; simpl.
  - split; [intros _; apply not_elem_of_nil|done].
  - rewrite elem_of_cons. case_bool_decide as Hk.
    + split; [discriminate|]. intros Hn. exfalso. apply Hn. by left.
    + rewrite IH. split.
      * intros Hn [->|Hin]; [done|]. by apply Hn.
      * intros Hn Hin. apply Hn. by right.
Qed.

Lemma clicks_sum_set (url : string) (v : Z) (cs : list (string * Z)) :
  foldr Z.add 0 (map snd (click_set url v cs)) =
  foldr Z.add 0 (map snd cs) - default 0 (click_lookup url cs) + v.
Proof.
  induction cs as [|[k w] r IH]; simpl.
  - lia.
  - case_bool_decide; simpl; lia.
Qed.

Lemma click_set_keys (url : string) (v : Z) (cs : list (string * Z)) :
  map fst (click_set url v cs) =
  if bool_decide (url ∈ map fst cs) then map fst cs else map fst cs ++ [url].
Proof.
  induction cs as [|[k w] r IH]; simpl.
  - reflexivity.
  - destruct (decide (k = url)) as [Hk|Hk].
    + rewrite (bool_decide_true _ Hk). subst k. simpl.
      rewrite bool_decide_true; [done|by left].
    + rewrite (bool_decide_false _ Hk). simpl. rewrite IH.
      case_bool_decide as Hr.
      * rewrite bool_decide_true; [done|by right].
      * rewrite bool_decide_false; [done|]. intros [->|?]%elem_of_cons; done.
Qed.

Lemma total_clicks_summary (l : Logs) :
  total_clicks (get_summary l) = foldr Z.add 0 (map snd (clicks l)).
Proof. reflexivity. Qed.

Lemma log_click_clicks (url : string) (l : Logs) :
  clicks (fst (log_click url l)) =
  click_set url (default 0 (click_lookup url (clicks l)) + 1)
    (if bool_decide (url ∈ map fst (clicks l)) then clicks l else click_set url 0 (clicks l)).
Proof.
  unfold log_click. simpl. case_bool_decide as Hin.
  - destruct (click_lookup url (clicks l)) as [n|] eqn:E; [done|].
    apply click_lookup_None in E. done.
  - rewrite click_lookup_set_same.
    assert (click_lookup url (clicks l) = None) as -> by (by apply click_lookup_None).
    done.
Qed.

(** [log_click url] adds one to the count of [url] (a new url starts from 0),
    leaves the count of every other url as it was, and raises the total
    click count of [get_summary] by exactly one. *)
Theorem log_click_counts (url : string) (l : Logs) :
  click_lookup url (clicks (fst (log_click url l))) =
    Some (default 0 (click_lookup url (clicks l)) + 1) ∧
  (∀ u, u ≠ url → click_lookup u (clicks (fst (log_click url l))) = click_lookup u (clicks l)) ∧
  total_clicks (get_summary (fst (log_click url l))) = total_clicks (get_summary l) + 1.
Proof.
  rewrite !log_click_clicks. split; [|split].
  - apply click_lookup_set_same.
  - intros u Hu. rewrite click_lookup_set_other by done.
    case_bool_decide; [done|]. by rewrite click_lookup_set_other.
  - rewrite !total_clicks_summary, log_click_clicks, clicks_sum_set.
    case_bool_decide as Hin.
    + lia.
    + rewrite click_lookup_set_same, clicks_sum_set.
      assert (click_lookup url (clicks l) = None) as -> by (by apply click_lookup_None).
      simpl. lia.
Qed.

(** On a clicks dictionary without repeated urls (as a Python dict is),
    [log_click url] keeps the urls in their order, appends [url] last when
    it is new, and repeats none. *)
Theorem log_click_keys (url : string) (l : Logs) :
  NoDup (map fst (clicks l)) →
  map fst (clicks (fst (log_click url l))) =
    (if bool_decide (url ∈ map fst (clicks l)) then map fst (clicks l)
     else map fst (clicks l) ++ [url]) ∧
  NoDup (map fst (clicks (fst (log_click url l)))).
Proof.
  intros Hnd. rewrite log_click_clicks.
  assert (map fst (click_set url (default 0 (click_lookup url (clicks l)) + 1)
      (if bool_decide (url ∈ map fst (clicks l)) then clicks l else click_set url 0 (clicks l)))
    = if bool_decide (url ∈ map fst (clicks l)) then map fst (clicks l)
      else map fst (clicks l) ++ [url]) as Hk.
  { destruct (decide (url ∈ map fst (clicks l))) as [Hin|Hin].
    - rewrite (bool_decide_true _ Hin), click_set_keys. by rewrite (bool_decide_true _ Hin).
    - rewrite (bool_decide_false _ Hin), !click_set_keys, (bool_decide_false _ Hin).
      rewrite bool_decide_true; [done|]. apply elem_of_app. right. by left. }
  rewrite Hk. split; [done|].
  destruct (decide (url ∈ map fst (clicks l))) as [Hin|Hin];
    [by rewrite (bool_decide_true _ Hin)|rewrite (bool_decide_false _ Hin)].
  apply NoDup_app. split; [done|]. split; [|apply NoDup_singleton].
  intros x Hx ->%list_elem_of_singleton. done.
Qed.

(** When every logged slider position lies between -1 and 1 (the range of
    the app's slider), the average slider position of [get_summary] lies
    between -1 and 1; with no entries it is 0. *)
Theorem get_summary_avg_bounds (l : Logs) :
  Forall (fun e => -1 <= e.1 <= 1) (slider_positions l) →
  (-1 <= avg_slider_position (get_summary l) <= 1)%Q.
Proof.
  intros Hall. unfold get_summary. simpl.
  set (n := Z.of_nat (length (slider_positions l))).
  assert (Z.abs (foldr Z.add 0 (map fst (slider_positions l))) <= n) as Hs.
  { subst n. induction (slider_positions l) as [|[p ts] r IH]; simpl; [lia|].
    apply Forall_cons in Hall as [Hp Hr]. specialize (IH Hr). simpl in Hp. lia. }
  assert (Z.pos (Z.to_pos (Z.max 1 n)) = Z.max 1 n) as Hd by (apply Z2Pos.id; lia).
  unfold Qle. simpl. rewrite Hd. lia.
Qed.

End AnalyticsLemmas.

Lemma get_summary_avg_bounds_witness :
  Forall (fun e => -1 <= e.1 <= 1)
    (Analytics.slider_positions (Analytics.mkLogs 3 [] [(1, "t1"); (-1, "t2"); (1, "t3")]%string)) ∧
  (-1 <= Analytics.avg_slider_position
          (Analytics.get_summary
             (Analytics.mkLogs 3%Z [] [(1%Z, "t1"); ((-1)%Z, "t2"); (1%Z, "t3")]%string))
   <= 1)%Q.
Proof.
  split; [repeat constructor; simpl; lia|].
  apply get_summary_avg_bounds. repeat constructor; simpl; lia.
Defined.

Lemma log_click_keys_witness :
  NoDup (map fst (Analytics.clicks (Analytics.mkLogs 0 [("u1", 2)] []%string))) ∧
  map fst (Analytics.clicks (fst (Analytics.log_click "u2" (Analytics.mkLogs 0 [("u1", 2)] [])))) =
    (if bool_decide ("u2" ∈ map fst (Analytics.clicks (Analytics.mkLogs 0 [("u1", 2)] [])))
     then map fst (Analytics.clicks (Analytics.mkLogs 0 [("u1", 2)] []))
     else map fst (Analytics.clicks (Analytics.mkLogs 0 [("u1", 2)] [])) ++ ["u2"]) ∧
  NoDup (map fst (Analytics.clicks (fst (Analytics.log_click "u2" (Analytics.mkLogs 0 [("u1", 2)] []))))).
Proof.
  split; [apply NoDup_singleton|].
  apply log_click_keys. apply NoDup_singleton.
Defined.

(** ** The page script *)

Lemma app_rerun_spec (p : Z) (ts : string) (ss : SessionState) (f : Analytics.LogFile) :
  fst (app_rerun p ts ss f) = mkSession true (Some p) ∧
  Analytics.load_logs (snd (app_rerun p ts ss f)) =
    Analytics.mkLogs (Analytics.visits (Analytics.load_logs f) + if visit_logged ss then 0 else 1)
      (Analytics.clicks (Analytics.load_logs f))
      (Analytics.slider_positions (Analytics.load_logs f) ++
         if bool_decide (last_slider_pos ss = Some p) then [] else [(p, ts)]).
Proof.
  destruct ss as [[] last]; unfold app_rerun; simpl;
    destruct (decide (last = Some p)) as [Hl|Hl];
    rewrite ?(bool_decide_true _ Hl), ?(bool_decide_false _ Hl); simpl;
    rewrite ?Z.add_0_r, ?app_nil_r; try subst last;
    destruct (Analytics.load_logs f); done.
Qed.

Lemma run_session_logged (inputs : list (Z * string)) (last : option Z) (f : Analytics.LogFile) :
  Analytics.load_logs (snd (run_session inputs (mkSession true last) f)) =
    Analytics.mkLogs (Analytics.visits (Analytics.load_logs f))
      (Analytics.clicks (Analytics.load_logs f))
      (Analytics.slider_positions (Analytics.load_logs f) ++ slider_changes last inputs).
Proof.
  revert last f. induction inputs as [|[p ts] r IH]; intros last f; simpl.
  - rewrite app_nil_r. by destruct (Analytics.load_logs f).
  - pose proof (app_rerun_spec p ts (mkSession true last) f) as [Hs HL].
    destruct (app_rerun p ts (mkSession true last) f) as [ss' f']. simpl in *.
    subst ss'. rewrite IH, HL. simpl. rewrite Z.add_0_r, <-app_assoc.
    destruct (decide (last = Some p)) as [Hl|Hl].
    + rewrite (bool_decide_true _ Hl). subst last. done.
    + rewrite (bool_decide_false _ Hl). done.
Qed.

(** One session of the page, run by itself on the log file, adds exactly one
    visit, records no click (the script never calls [log_click]) and appends
    the slider values in order, each one only when it differs from the
    previous one logged; an absent, empty or corrupted file counts as empty
    logs. *)
Theorem app_session_logs (inputs : list (Z * string)) (f : Analytics.LogFile) :
  inputs ≠ [] →
  let L := Analytics.load_logs f in
  let L' := Analytics.load_logs (snd (run_session inputs new_session f)) in
  Analytics.visits L' = Analytics.visits L + 1 ∧
  Analytics.clicks L' = Analytics.clicks L ∧
  Analytics.slider_positions L' = Analytics.slider_positions L ++ slider_changes None inputs.
Proof.
  intros Hne. cbv zeta. destruct inputs as [|[p ts] r]; [done|]. cbn [run_session].
  pose proof (app_rerun_spec p ts new_session f) as [Hs HL].
  destruct (app_rerun p ts new_session f) as [ss' f']. simpl in Hs, HL. subst ss'.
  rewrite run_session_logged, HL. simpl.
  repeat split; simpl; rewrite ?Z.add_0_r; try done.
  rewrite <-app_assoc. done.
Qed.

Lemma app_session_logs_witness :
  [(0, "t1"); (0, "t2"); (1, "t3")]%string ≠ [] ∧
  let L := Analytics.load_logs Analytics.CorruptLogFile in
  let L' := Analytics.load_logs
              (snd (run_session [(0, "t1"); (0, "t2"); (1, "t3")]%string new_session
                      Analytics.CorruptLogFile)) in
  Analytics.visits L' = Analytics.visits L + 1 ∧
  Analytics.clicks L' = Analytics.clicks L ∧
  Analytics.slider_positions L' =
    Analytics.slider_positions L ++ slider_changes None [(0, "t1"); (0, "t2"); (1, "t3")]%string.
Proof.
  split; [discriminate|]. apply app_session_logs. discriminate.
Defined.

Lemma lstrip_chars_nil (chars l : list ascii) :
  Py.lstrip_chars chars l = [] ↔ Forall (fun c => c ∈ chars) l.
Proof.
  induction l as [|c r IH]; simpl.
  - split; [constructor|done].
  - rewrite Forall_cons. case_bool_decide as Hc.
    + rewrite IH. tauto.
    + split; [discriminate|]. intros [??]. done.
Qed.

Lemma lstrip_chars_Forall_iff (chars l : list ascii) :
  Forall (fun c => c ∈ chars) (Py.lstrip_chars chars l) ↔ Forall (fun c => c ∈ chars) l.
Proof.
  induction l as [|c r IH]; simpl; [done|].
  case_bool_decide as Hc; [|done].
  rewrite IH, Forall_cons. tauto.
Qed.

Lemma strip_chars_nil (chars cs : list ascii) :
  Py.strip_chars chars cs = [] ↔ Forall (fun c => c ∈ chars) cs.
Proof.
  unfold Py.strip_chars.
  rewrite <-(lstrip_chars_Forall_iff chars cs).
  split.
  - intros H. destruct (Py.lstrip_chars chars (rev (Py.lstrip_chars chars cs))) eqn:E;
      [|simpl in H; destruct (rev l); discriminate].
    apply lstrip_chars_nil in E. apply Forall_rev in E. by rewrite rev_involutive in E.
  - intros H. apply Forall_rev, lstrip_chars_nil in H. by rewrite H.
Qed.

Lemma is_space_whitespace (c : ascii) : Py.is_space c = bool_decide (c ∈ whitespace).
Proof. destruct c as [[] [] [] [] [] [] [] []]; vm_compute; reflexivity. Qed.

Lemma not_all_space (l : list ascii) :
  ¬ Forall (fun c => c ∈ whitespace) l → ∃ c, c ∈ l ∧ Py.is_space c = false.
Proof.
  induction l as [|c r IH]; intros Hn; [by destruct Hn|].
  destruct (Py.is_space c) eqn:Hs.
  - rewrite is_space_whitespace in Hs. apply bool_decide_eq_true in Hs.
    destruct IH as (x & Hx & Hxs).
    + intros Hr. apply Hn. by constructor.
    + exists x. split; [by right|done].
  - exists c. split; [by left|done].
Qed.

(** The feedback button thanks the user exactly when the text has a
    character other than white space; an empty or blank text gets the
    warning. *)
Theorem send_feedback_thanks (feedback_text : string) :
  send_feedback feedback_text = FeedbackThanks ↔
  ∃ c, c ∈ list_ascii_of_string feedback_text ∧ Py.is_space c = false.
Proof.
  unfold send_feedback, Py.strip.
  assert (string_of_list_ascii (Py.strip_chars whitespace (list_ascii_of_string feedback_text))
          = ""%string ↔ Forall (fun c => c ∈ whitespace) (list_ascii_of_string feedback_text)) as He.
  { rewrite <-strip_chars_nil.
    destruct (Py.strip_chars whitespace (list_ascii_of_string feedback_text)); simpl;
      split; done. }
  case_bool_decide as H.
  - split; [discriminate|]. intros (c & Hc & Hs).
    apply He in H. rewrite Forall_forall in H. specialize (H c Hc).
    rewrite is_space_whitespace, bool_decide_eq_true_2 in Hs; done.
  - split; [intros _|done]. apply not_all_space. intros Hall. by apply H, He.
Qed.

(** Every issue [fetch_real_news_from] returns can be shown at any slider
    value: [get_articles_by_bias] raises no [KeyError] on it and returns
    articles of the issue, in their order. *)
Theorem fetch_real_news_filter_ok (batch : list RawArticle) (bias_preference : Z) :
  Forall (fun i => ∃ arts shown, articles i = Some arts ∧
            get_articles_by_bias i bias_preference = Ok shown ∧ sublist shown arts)
    (fetch_real_news_from batch).
Proof.
  assert (∀ i arts, articles i = Some arts → ∃ shown,
            get_articles_by_bias i bias_preference = Ok shown ∧ sublist shown arts) as Hf.
  { intros i arts Ha. unfold get_articles_by_bias. rewrite Ha.
    destruct (bias_preference =? -1); [eexists; split; [done|apply sublist_filter]|].
    destruct (bias_preference =? 1); [eexists; split; [done|apply sublist_filter]|].
    eexists; split; [done|reflexivity]. }
  unfold fetch_real_news_from.
  destruct (cluster batch) as [issues|e] eqn:H.
  - apply cluster_good in H as [Hg _].
    eapply Forall_impl; [exact Hg|]. intros i (l & Ha & _).
    destruct (Hf i l Ha) as (shown & ? & ?). eauto.
  - constructor; [|done].
    destruct (Hf (hd (mkIssue 0 "" [] None) get_fallback_issues) _ eq_refl) as (shown & ? & ?).
    eauto.
Qed.
